(** * Verification of scripts/detect_commented_code.py

    A shallow embedding of the commented-code scanner: Python strings as
    lists of Unicode code points, the compiled pattern as a sequence of
    quantified character classes run by a backtracking matcher, the
    directory tree as a finite tree of nodes, and the script's effects
    (printing, opening files, raising) in a small state-and-exception monad. *)

From Stdlib Require Import String Ascii List NArith ZArith Bool Lia.
Import ListNotations.

Set Implicit Arguments.

(** ** Python strings *)

(** A [str] is a sequence of code points. *)
Definition char := N.
Definition pystr := list char.

(** ASCII literals of the development, read as code points. *)
Definition str (s : string) : pystr :=
  map N_of_ascii (list_ascii_of_string s).
Arguments str s%_string.

Definition LF : char := 10%N.
Definition CR : char := 13%N.
Definition HASH : char := 35%N.
Definition LPAREN : char := 40%N.
Definition RPAREN : char := 41%N.

Definition in_range (lo hi c : char) : bool := (lo <=? c)%N && (c <=? hi)%N.

(** Unicode white space as CPython decides it ([Py_UNICODE_ISSPACE]); the
    regular-expression class [\s] on a [str] pattern and [str.strip()] both
    use this test. *)
Definition isspace (c : char) : bool :=
  (in_range 9 13 c || in_range 28 32 c || (c =? 133) || (c =? 160)
   || (c =? 5760) || in_range 8192 8202 c || (c =? 8232) || (c =? 8233)
   || (c =? 8239) || (c =? 8287) || (c =? 12288))%N.

(** [str.strip()]: leading and trailing white space removed. *)
Fixpoint lstrip (s : pystr) : pystr :=
  match s with
  | c :: s' => if isspace c then lstrip s' else s
  | [] => []
  end.

Definition rstrip (s : pystr) : pystr := rev (lstrip (rev s)).

Definition strip (s : pystr) : pystr := rstrip (lstrip s).

Definition pystr_eqb (a b : pystr) : bool :=
  if list_eq_dec N.eq_dec a b then true else false.

(** [s.endswith(suffix)] for one suffix: the last [len(suffix)] code points
    of [s] are [suffix]. *)
Definition endswith1 (s suffix : pystr) : bool :=
  (length suffix <=? length s) &&
  pystr_eqb (skipn (length s - length suffix) s) suffix.

(** [s.endswith(tuple)]: some member of the tuple is a suffix. *)
Definition endswith (s : pystr) (suffixes : list pystr) : bool :=
  existsb (endswith1 s) suffixes.

(** ** The detection pattern *)

Module Re.

(** Character classes occurring in the pattern. *)
Inductive cls :=
| Space                 (* \s *)
| Dot                   (* .  : anything but a line feed *)
| Word                  (* [a-zA-Z0-9_] *)
| Lit (c : char).       (* a literal character *)

Definition cls_test (k : cls) (c : char) : bool :=
  match k with
  | Space => isspace c
  | Dot => negb (c =? LF)%N
  | Word => (in_range 97 122 c || in_range 65 90 c || in_range 48 57 c
             || (c =? 95))%N
  | Lit d => (c =? d)%N
  end.

(** The pattern's pieces: one character of a class, or a class under the
    greedy quantifiers [*] and [+]. *)
Inductive item :=
| One (k : cls)
| Star (k : cls)
| Plus (k : cls).

Definition regex := list item.

(** [pattern.match(s)]: the pattern has to match at the start of [s], and
    need not reach its end.  A greedy repetition takes a character when it
    can and falls back to the rest of the pattern when that fails, as the
    backtracking engine does. *)
Fixpoint run (p : regex) : pystr -> bool :=
  match p with
  | [] => fun _ => true
  | One k :: p' =>
      fun s => match s with
               | c :: s' => cls_test k c && run p' s'
               | [] => false
               end
  | Star k :: p' =>
      fix star (s : pystr) : bool :=
        match s with
        | c :: s' => (cls_test k c && star s') || run p' s
        | [] => run p' []
        end
  | Plus k :: p' =>
      fun s => match s with
               | c :: s' =>
                   cls_test k c &&
                   (fix star (s : pystr) : bool :=
                      match s with
                      | c :: s' => (cls_test k c && star s') || run p' s
                      | [] => run p' []
                      end) s'
               | [] => false
               end
  end.

(** The language of a pattern, read off its pieces. *)
Inductive lang : regex -> pystr -> Prop :=
| lang_nil : lang [] []
| lang_one k p c s :
    cls_test k c = true -> lang p s -> lang (One k :: p) (c :: s)
| lang_star k p r s :
    forallb (cls_test k) r = true -> lang p s -> lang (Star k :: p) (r ++ s)
| lang_plus k p c r s :
    cls_test k c = true -> forallb (cls_test k) r = true -> lang p s ->
    lang (Plus k :: p) (c :: r ++ s).

End Re.

(** [re.compile(r'^\s*#.*[a-zA-Z0-9_]+\s*\(.*\)')]; the leading [^] holds
    at the start of the string, where [match] begins. *)
Definition commented_code_pattern : Re.regex :=
  [Re.Star Re.Space; Re.One (Re.Lit HASH); Re.Star Re.Dot; Re.Plus Re.Word;
   Re.Star Re.Space; Re.One (Re.Lit LPAREN); Re.Star Re.Dot;
   Re.One (Re.Lit RPAREN)].

(** Truth value of [commented_code_pattern.match(line)]. *)
Definition commented_code_match (line : pystr) : bool :=
  Re.run commented_code_pattern line.

(** ** Text files and the directory tree *)

(** [file.readlines()] on a file opened in text mode: the decoded content
    is cut after each line ending, and the endings [\n], [\r] and [\r\n]
    all read as [\n] (universal newlines).  [cur] holds the characters of
    the line being read, last one first. *)
Fixpoint readlines_from (cur : pystr) (text : pystr) : list pystr :=
  match text with
  | [] => match cur with
          | [] => []
          | _ :: _ => [rev cur]
          end
  | c :: rest =>
      if (c =? LF)%N then rev (LF :: cur) :: readlines_from [] rest
      else if (c =? CR)%N then
        match rest with
        | d :: rest' =>
            if (d =? LF)%N then rev (LF :: cur) :: readlines_from [] rest'
            else rev (LF :: cur) :: readlines_from [] rest
        | [] => [rev (LF :: cur)]
        end
      else readlines_from (c :: cur) rest
  end.

Definition readlines (text : pystr) : list pystr := readlines_from [] text.

Inductive io_error :=
| OSError               (* the file cannot be opened *)
| UnicodeDecodeError.   (* its bytes are not UTF-8 *)

(** What [open(path, "r", encoding="utf-8")] and [readlines()] meet at a
    path: the decoded content, or the error raised. *)
Inductive file_data :=
| Text (content : pystr)
| Unreadable (e : io_error).

(** A directory entry is paired with what its name resolves to.  A
    directory whose listing is [None] cannot be listed, or is a symbolic
    link to a directory: [os.walk] names it among [dirs] and yields nothing
    for it (errors of the listing are ignored, links are not followed). *)
#[warnings="-register-all"]
Inductive node :=
| File (d : file_data)
| Dir (listing : option (list (pystr * node))).

Definition SLASH : char := 47%N.

(** [os.path.join(a, b)] (POSIX). *)
Definition path_join (a b : pystr) : pystr :=
  if match b with c :: _ => (c =? SLASH)%N | [] => false end then b
  else if match rev a with c :: _ => (c =? SLASH)%N | [] => true end
       then a ++ b
       else a ++ SLASH :: b.

Fixpoint dirs_of (es : list (pystr * node)) : list pystr :=
  match es with
  | (name, Dir _) :: es' => name :: dirs_of es'
  | (_, File _) :: es' => dirs_of es'
  | [] => []
  end.

(** The non-directory names of a listing, each with the data found when
    the path made of the listed directory and that name is opened. *)
Fixpoint files_of (es : list (pystr * node)) : list (pystr * file_data) :=
  match es with
  | (name, File d) :: es' => (name, d) :: files_of es'
  | (_, Dir _) :: es' => files_of es'
  | [] => []
  end.

(** One triple [(root, dirs, files)] yielded by [os.walk]. *)
Record walk_step := WalkStep {
  ws_root : pystr;
  ws_dirs : list pystr;
  ws_files : list (pystr * file_data)
}.

(** [os.walk(top)], top-down, [onerror=None], [followlinks=False]: the
    triple of a directory comes before those of its sub-directories, which
    are walked in the order of [dirs]. *)
Fixpoint os_walk (top : pystr) (n : node) : list walk_step :=
  match n with
  | Dir (Some es) =>
      WalkStep top (dirs_of es) (files_of es)
      :: flat_map (fun e : pystr * node =>
                     let (name, child) := e in
                     match child with
                     | Dir _ => os_walk (path_join top name) child
                     | File _ => []
                     end) es
  | Dir None => []
  | File _ => []
  end.

(** [os.walk] on a path that may name nothing at all. *)
Definition os_walk_path (top : pystr) (at_top : option node) : list walk_step :=
  match at_top with
  | Some n => os_walk top n
  | None => []
  end.

(** ** Effects *)

(** The observable state: the texts handed to [print], one per call and in
    order, and the paths handed to [open], in order. *)
Record world := World {
  stdout : list pystr;
  opened : list pystr
}.

Inductive exn :=
| IOError (e : io_error)
| SystemExit (code : Z).

Inductive result (A : Type) :=
| Ok (a : A)
| Raise (e : exn).
Arguments Ok {A} a.
Arguments Raise {A} e.

Definition M (A : Type) : Type := world -> world * result A.

Definition ret {A} (a : A) : M A := fun w => (w, Ok a).

Definition bind {A B} (m : M A) (k : A -> M B) : M B :=
  fun w => match m w with
           | (w', Ok a) => k a w'
           | (w', Raise e) => (w', Raise e)
           end.

Definition raise {A} (e : exn) : M A := fun w => (w, Raise e).

Declare Scope py_scope.
Delimit Scope py_scope with py.
Notation "x <- m ;; k" := (bind m (fun x => k))
  (at level 61, m at next level, right associativity) : py_scope.
Notation "m ;; k" := (bind m (fun _ => k))
  (at level 61, right associativity) : py_scope.
Open Scope py_scope.

Definition print (s : pystr) : M unit :=
  fun w => (World (stdout w ++ [s]) (opened w), Ok tt).

(** [with open(filepath, "r", encoding="utf-8") as file: file.readlines()] *)
Definition open_readlines (filepath : pystr) (d : file_data)
  : M (list pystr) :=
  fun w =>
    let w' := World (stdout w) (opened w ++ [filepath]) in
    match d with
    | Text content => (w', Ok (readlines content))
    | Unreadable e => (w', Raise (IOError e))
    end.

Definition sys_exit {A} (code : Z) : M A := raise (SystemExit code).

(** [for x in xs: body], the loop's variables threaded as [s]. *)
Fixpoint for_loop {A S} (xs : list A) (body : A -> S -> M S) (s : S) : M S :=
  match xs with
  | [] => ret s
  | x :: xs' => s' <- body x s ;; for_loop xs' body s'
  end.

(** ** The script *)

Definition TARGET_DIR : pystr := str "src".

Definition SUFFIXES : list pystr := [str ".py"; str ".js"; str ".ts"].

(** The first loop of [scan_file], over [lines], with [commented_lines]
    as it grows. *)
Definition collect_commented (lines : list pystr) : list pystr :=
  fold_left (fun commented_lines line =>
               if commented_code_match line
               then commented_lines ++ [strip line]
               else commented_lines)
            lines [].

Definition found_header (filepath : pystr) : pystr :=
  LF :: str " Commented-out code found in: " ++ filepath.

Definition arrow_line (line : pystr) : pystr :=
  str "  " ++ 8594%N :: str " " ++ line.

(** [scan_file(filepath)]; [d] is what is found at [filepath]. *)
Definition scan_file (filepath : pystr) (d : file_data) : M bool :=
  lines <- open_readlines filepath d ;;
  let commented_lines := collect_commented lines in
  match commented_lines with
  | _ :: _ =>
      print (found_header filepath) ;;
      for_loop commented_lines (fun line _ => print (arrow_line line)) tt ;;
      ret true
  | [] => ret false
  end.

(** [scan_directory(directory)]; [at_dir] is what [directory] names. *)
Definition scan_directory (directory : pystr) (at_dir : option node)
  : M bool :=
  for_loop (os_walk_path directory at_dir)
    (fun step has_error =>
       for_loop (ws_files step)
         (fun file has_error =>
            if endswith (fst file) SUFFIXES then
              let filepath := path_join (ws_root step) (fst file) in
              found <- scan_file filepath (snd file) ;;
              if found then ret true else ret has_error
            else ret has_error)
         has_error)
    false.

Definition scanning_banner : pystr :=
  128269%N :: str " Scanning for commented-out code...".
Definition failed_banner : pystr :=
  LF :: str " Build failed because commented-out code was detected.".
Definition clean_banner : pystr := str " No commented-out code found!".

(** The body run under [if __name__ == "__main__"]. *)
Definition main (at_target : option node) : M unit :=
  print scanning_banner ;;
  errors_found <- scan_directory TARGET_DIR at_target ;;
  if errors_found then
    print failed_banner ;;
    sys_exit 1
  else
    print clean_banner ;;
    sys_exit 0.

(** How the process ends: [sys.exit(code)] sets the exit status; any other
    exception reaches the top level uncaught. *)
Inductive ending :=
| Exited (code : Z)
| Uncaught (e : io_error).

Definition ending_of (r : result unit) : ending :=
  match r with
  | Ok _ => Exited 0
  | Raise (SystemExit code) => Exited code
  | Raise (IOError e) => Uncaught e
  end.

Definition start : world := World [] [].

(** One run of the script on a tree: what it printed, what it opened and
    how it ended. *)
Definition run_script (at_target : option node) : world * ending :=
  let (w, r) := main at_target start in (w, ending_of r).

(** ** Vocabulary of the properties *)

(** The pattern as the description words it: the identifier characters
    are followed at once by the opening parenthesis. *)
Definition described_pattern : Re.regex :=
  [Re.Star Re.Space; Re.One (Re.Lit HASH); Re.Star Re.Dot; Re.Plus Re.Word;
   Re.One (Re.Lit LPAREN); Re.Star Re.Dot; Re.One (Re.Lit RPAREN)].

Definition isword (c : char) : bool := Re.cls_test Re.Word c.

(** A line of a file holds a line feed at its end at most. *)
Definition one_line (line : pystr) : Prop := ~ In LF (removelast line).

(** A comment that looks like a call: white space, [#], anything, an
    identifier, white space, [(], anything, [)], and whatever follows. *)
Definition looks_like_call (line : pystr) : Prop :=
  exists ws a ident sp b rest,
    line = ws ++ HASH :: a ++ ident ++ sp ++ LPAREN :: b ++ RPAREN :: rest
    /\ forallb isspace ws = true
    /\ ident <> [] /\ forallb isword ident = true
    /\ forallb isspace sp = true.

(** The same with the identifier touching the parenthesis. *)
Definition looks_like_tight_call (line : pystr) : Prop :=
  exists ws a ident b rest,
    line = ws ++ HASH :: a ++ ident ++ LPAREN :: b ++ RPAREN :: rest
    /\ forallb isspace ws = true
    /\ ident <> [] /\ forallb isword ident = true.

(** The matched lines of a text, in the order of the file, trimmed. *)
Definition matched_lines (content : pystr) : list pystr :=
  map strip (filter commented_code_match (readlines content)).

(** [file_in top n root name d]: below the directory [n] of path [top],
    through directories that can be listed, the directory of path [root]
    lists the file [name], whose data is [d]. *)
Inductive file_in : pystr -> node -> pystr -> pystr -> file_data -> Prop :=
| file_here top es name d :
    In (name, File d) es ->
    file_in top (Dir (Some es)) top name d
| file_below top es sub child root name d :
    In (sub, child) es ->
    file_in (path_join top sub) child root name d ->
    file_in top (Dir (Some es)) root name d.

Definition file_under (directory : pystr) (at_dir : option node)
    (root name : pystr) (d : file_data) : Prop :=
  exists n, at_dir = Some n /\ file_in directory n root name d.

(** The files that the scan is about: those with a recognized suffix. *)
Definition scanned (directory : pystr) (at_dir : option node)
    (root name : pystr) (d : file_data) : Prop :=
  file_under directory at_dir root name d /\ endswith name SUFFIXES = true.

(** A file with at least one line that matches the pattern. *)
Definition has_match (d : file_data) : Prop :=
  exists content line,
    d = Text content /\ In line (readlines content)
    /\ commented_code_match line = true.

(** Every file the scan is about can be opened and decoded. *)
Definition all_readable (directory : pystr) (at_dir : option node) : Prop :=
  forall root name d,
    scanned directory at_dir root name d -> exists content, d = Text content.

(** The scanned files along the walk, as path and data. *)
Definition scanned_of_step (step : walk_step) : list (pystr * file_data) :=
  map (fun file => (path_join (ws_root step) (fst file), snd file))
      (filter (fun file => endswith (fst file) SUFFIXES) (ws_files step)).

Definition scanned_files (directory : pystr) (at_dir : option node)
  : list (pystr * file_data) :=
  flat_map scanned_of_step (os_walk_path directory at_dir).

(** What the scan of one readable file prints. *)
Definition report (file : pystr * file_data) : list pystr :=
  match snd file with
  | Text content =>
      match matched_lines content with
      | [] => []
      | line :: more =>
          found_header (fst file) :: map arrow_line (line :: more)
      end
  | Unreadable _ => []
  end.

Definition offending (file : pystr * file_data) : bool :=
  match snd file with
  | Text content =>
      match matched_lines content with
      | [] => false
      | _ :: _ => true
      end
  | Unreadable _ => false
  end.

(** The files read without error before the first that cannot be read,
    and that one with its error. *)
Fixpoint until_unreadable (files : list (pystr * file_data))
  : list (pystr * file_data) * option (pystr * io_error) :=
  match files with
  | [] => ([], None)
  | (p, Unreadable e) :: _ => ([], Some (p, e))
  | (p, Text content) :: files' =>
      let (done, failure) := until_unreadable files' in
      ((p, Text content) :: done, failure)
  end.

(** A tree with the data of the files the scan is not about replaced at
    will: [g] gives the new data from the name and the old data. *)
Fixpoint with_unscanned (g : pystr -> file_data -> file_data) (n : node)
  : node :=
  match n with
  | Dir (Some es) =>
      Dir (Some (map (fun e : pystr * node =>
                        let (name, child) := e in
                        (name,
                         match child with
                         | File d =>
                             File (if endswith name SUFFIXES then d
                                   else g name d)
                         | Dir _ => with_unscanned g child
                         end)) es))
  | Dir None => n
  | File _ => n
  end.

(** The scan of a sequence of files written out: the reports of the files
    read, the paths opened, and the flag or the first error. *)
Definition scan_outcome (files : list (pystr * file_data))
    (has_error : bool) (w : world) : world * result bool :=
  let (done, failure) := until_unreadable files in
  (World (stdout w ++ flat_map report done)
         (opened w ++ map fst done
          ++ match failure with
             | Some (p, _) => [p]
             | None => []
             end),
   match failure with
   | None => Ok (has_error || existsb offending done)
   | Some (_, e) => Raise (IOError e)
   end).

(** The loop body over the files of one step of the walk. *)
Definition file_body (root : pystr) (file : pystr * file_data)
    (has_error : bool) : M bool :=
  if endswith (fst file) SUFFIXES then
    let filepath := path_join root (fst file) in
    found <- scan_file filepath (snd file) ;;
    if found then ret true else ret has_error
  else ret has_error.

(** Induction on a tree, with the property at hand for every entry of a
    listing. *)
Section NodeInduction.
Variable P : node -> Prop.
Hypothesis P_file : forall d, P (File d).
Hypothesis P_unlisted : P (Dir None).
Hypothesis P_dir :
  forall es, Forall (fun e => P (snd e)) es -> P (Dir (Some es)).

Fixpoint node_induction (n : node) : P n :=
  match n with
  | File d => P_file d
  | Dir None => P_unlisted
  | Dir (Some es) =>
      P_dir
        ((fix all (es : list (pystr * node))
            : Forall (fun e => P (snd e)) es :=
            match es with
            | [] => Forall_nil _
            | e :: es' =>
                Forall_cons e
                  (match e return P (snd e) with
                   | (_, child) => node_induction child
                   end)
                  (all es')
            end) es)
  end.
End NodeInduction.

Definition is_text (d : file_data) : bool :=
  match d with
  | Text _ => true
  | Unreadable _ => false
  end.

(** A small tree: two offending files, a clean one, and a text file the
    scan is not about. *)
Definition sample_tree : node :=
  Dir (Some
    [ (str "a.py", File (Text (str "print(1)" ++ [LF])));
      (str "sub",
       Dir (Some
         [ (str "b.py",
            File (Text (str "x = 1" ++ LF :: str "    # total(a, b)" ++ [LF])));
           (str "d.txt", File (Text (str "# total(a,b)" ++ [LF]))) ]));
      (str "c.js",
       File (Text (str "# see formula: total(a,b) explained" ++ [LF]))) ]).

(** A name that does not start with a slash, as the names of a listing
    are. *)
Definition relative_name (name : pystr) : bool :=
  match name with
  | c :: _ => negb (c =? SLASH)%N
  | [] => true
  end.

Fixpoint names_relative (n : node) : bool :=
  match n with
  | Dir (Some es) =>
      forallb (fun e : pystr * node =>
                 let (name, child) := e in
                 relative_name name && names_relative child) es
  | Dir None => true
  | File _ => true
  end.

(** The tree with every directory that cannot be listed made an empty
    directory. *)
Fixpoint emptied (n : node) : node :=
  match n with
  | Dir (Some es) =>
      Dir (Some (map (fun e : pystr * node =>
                        let (name, child) := e in (name, emptied child)) es))
  | Dir None => Dir (Some [])
  | File _ => n
  end.

(** The tree with the listing of its top directory in reverse order. *)
Definition reversed_listing (n : node) : node :=
  match n with
  | Dir (Some es) => Dir (Some (rev es))
  | Dir None => n
  | File _ => n
  end.

(** A printed line of a report: a header or a matched line. *)
Definition is_report_line (s : pystr) : Prop :=
  (exists filepath, s = found_header filepath)
  \/ (exists line, s = arrow_line line).

(** A tree with a file that cannot be decoded between two offending
    files. *)
Definition broken_tree : node :=
  Dir (Some [(str "a.py", File (Text (str "# f(x)" ++ [LF])));
             (str "b.py", File (Unreadable UnicodeDecodeError));
             (str "c.py", File (Text (str "# g(y)" ++ [LF])))]).

(** A path at or below the target directory. *)
Definition under_target (path : pystr) : Prop :=
  path = TARGET_DIR \/ exists rel, path = str "src/" ++ rel.

(** * Properties *)

(** ** The matcher *)

Module ReFacts.
Import Re.

Lemma run_star_nil k p : run (Star k :: p) [] = run p [].
Proof. reflexivity. Qed.

Lemma run_star_cons k p c s :
  run (Star k :: p) (c :: s)
  = (cls_test k c && run (Star k :: p) s) || run p (c :: s).
Proof. reflexivity. Qed.

Lemma run_plus_cons k p c s :
  run (Plus k :: p) (c :: s) = cls_test k c && run (Star k :: p) s.
Proof. reflexivity. Qed.

Lemma run_star_skip k p s : run p s = true -> run (Star k :: p) s = true.
Proof.
  destruct s as [|c s]; intro H.
  - now rewrite run_star_nil.
  - rewrite run_star_cons, H. apply orb_true_r.
Qed.

Lemma run_star_take k p r s :
  forallb (cls_test k) r = true ->
  run (Star k :: p) s = true -> run (Star k :: p) (r ++ s) = true.
Proof.
  induction r as [|c r IH]; simpl app; intros Hr Hs; [exact Hs|].
  simpl in Hr. apply andb_true_iff in Hr as [Hc Hr].
  rewrite run_star_cons, Hc, (IH Hr Hs). reflexivity.
Qed.

(** A word of the language, followed by anything, is accepted. *)
Lemma run_complete p pre :
  lang p pre -> forall rest, run p (pre ++ rest) = true.
Proof.
  induction 1 as [|k p c s Hc _ IH|k p r s Hr _ IH|k p c r s Hc Hr _ IH];
    intro rest.
  - reflexivity.
  - simpl. now rewrite Hc, IH.
  - rewrite <- app_assoc. apply run_star_take; [exact Hr|].
    apply run_star_skip, IH.
  - simpl app. rewrite run_plus_cons, Hc. simpl andb.
    rewrite <- app_assoc. apply run_star_take; [exact Hr|].
    apply run_star_skip, IH.
Qed.

Lemma run_star_sound k p :
  (forall s, run p s = true ->
             exists pre rest, s = pre ++ rest /\ lang p pre) ->
  forall s, run (Star k :: p) s = true ->
            exists r pre rest,
              s = r ++ pre ++ rest /\ forallb (cls_test k) r = true
              /\ lang p pre.
Proof.
  intros IHp s. induction s as [|c s IHs]; intro H.
  - rewrite run_star_nil in H. destruct (IHp _ H) as (pre & rest & E & L).
    exists [], pre, rest. auto.
  - rewrite run_star_cons in H. apply orb_true_iff in H as [H|H].
    + apply andb_true_iff in H as [Hc H].
      destruct (IHs H) as (r & pre & rest & E & Hr & L).
      exists (c :: r), pre, rest. subst s. simpl. rewrite Hc. auto.
    + destruct (IHp _ H) as (pre & rest & E & L).
      exists [], pre, rest. auto.
Qed.

(** What is accepted starts with a word of the language. *)
Lemma run_sound p :
  forall s, run p s = true -> exists pre rest, s = pre ++ rest /\ lang p pre.
Proof.
  induction p as [|[k|k|k] p IHp]; intros s H.
  - exists [], s. split; [reflexivity|constructor].
  - destruct s as [|c s]; [discriminate|]. simpl in H.
    apply andb_true_iff in H as [Hc H].
    destruct (IHp _ H) as (pre & rest & -> & L).
    exists (c :: pre), rest. split; [reflexivity|now constructor].
  - destruct (run_star_sound k IHp s H) as (r & pre & rest & -> & Hr & L).
    exists (r ++ pre), rest. rewrite app_assoc. split; [reflexivity|].
    now constructor.
  - destruct s as [|c s]; [discriminate|]. rewrite run_plus_cons in H.
    apply andb_true_iff in H as [Hc H].
    destruct (run_star_sound k IHp s H) as (r & pre & rest & -> & Hr & L).
    exists (c :: r ++ pre), rest. simpl. rewrite app_assoc.
    split; [reflexivity|]. now constructor.
Qed.

Theorem run_iff p s :
  run p s = true <-> exists pre rest, s = pre ++ rest /\ lang p pre.
Proof.
  split.
  - apply run_sound.
  - intros (pre & rest & -> & L). now apply run_complete.
Qed.

Lemma lang_one_inv k p s :
  lang (One k :: p) s ->
  exists c s', s = c :: s' /\ cls_test k c = true /\ lang p s'.
Proof. inversion 1; subst; eauto. Qed.

Lemma lang_star_inv k p s :
  lang (Star k :: p) s ->
  exists r s', s = r ++ s' /\ forallb (cls_test k) r = true /\ lang p s'.
Proof. inversion 1; subst; eauto. Qed.

Lemma lang_plus_inv k p s :
  lang (Plus k :: p) s ->
  exists c r s', s = c :: r ++ s' /\ cls_test k c = true
                 /\ forallb (cls_test k) r = true /\ lang p s'.
Proof. inversion 1; subst; eauto 7. Qed.

Lemma lang_nil_inv s : lang [] s -> s = [].
Proof. now inversion 1. Qed.

Lemma lit_test c d : cls_test (Lit d) c = true -> c = d.
Proof. apply N.eqb_eq. Qed.

Lemma dots_iff a : forallb (cls_test Dot) a = true <-> ~ In LF a.
Proof.
  induction a as [|c a IH]; simpl.
  - tauto.
  - rewrite andb_true_iff, IH, negb_true_iff, N.eqb_neq. intuition congruence.
Qed.

End ReFacts.

(** ** The detection pattern, piece by piece *)

Section Pattern.
Import Re ReFacts.

Ltac peel H :=
  first
    [ apply lang_star_inv in H as (? & ? & -> & ? & H)
    | apply lang_plus_inv in H as (? & ? & ? & -> & ? & ? & H)
    | apply lang_one_inv in H as (? & ? & -> & ? & H)
    | apply lang_nil_inv in H as -> ].

Lemma lang_commented_code_pattern pre :
  lang commented_code_pattern pre <->
  exists ws a ident sp b,
    pre = ws ++ HASH :: a ++ ident ++ sp ++ LPAREN :: b ++ [RPAREN]
    /\ forallb isspace ws = true /\ ~ In LF a
    /\ ident <> [] /\ forallb isword ident = true
    /\ forallb isspace sp = true /\ ~ In LF b.
Proof.
  unfold commented_code_pattern. split.
  - intro H. repeat peel H.
    repeat match goal with
           | E : cls_test (Lit _) _ = true |- _ => apply lit_test in E; subst
           end.
    match goal with
    | Hws : forallb (cls_test Space) ?ws = true,
      Ha : forallb (cls_test Dot) ?a = true,
      Hc : cls_test Word ?c = true,
      Hr : forallb (cls_test Word) ?r = true,
      Hsp : forallb (cls_test Space) ?sp = true,
      Hb : forallb (cls_test Dot) ?b = true |- _ =>
        exists ws, a, (c :: r), sp, b;
        apply dots_iff in Ha; apply dots_iff in Hb;
        repeat split; auto;
        [discriminate | simpl; unfold isword at 1; now rewrite Hc]
    end.
  - intros (ws & a & ident & sp & b & -> & Hws & Ha & Hne & Hid & Hsp & Hb).
    destruct ident as [|c r]; [congruence|].
    simpl in Hid. apply andb_true_iff in Hid as [Hc Hr].
    apply dots_iff in Ha, Hb.
    apply lang_star; [exact Hws|].
    apply lang_one; [apply N.eqb_refl|].
    apply lang_star; [exact Ha|].
    simpl app.
    apply lang_plus; [exact Hc|exact Hr|].
    apply lang_star; [exact Hsp|].
    apply lang_one; [apply N.eqb_refl|].
    apply lang_star; [exact Hb|].
    apply lang_one; [apply N.eqb_refl|].
    constructor.
Qed.

Lemma lang_described_pattern pre :
  lang described_pattern pre <->
  exists ws a ident b,
    pre = ws ++ HASH :: a ++ ident ++ LPAREN :: b ++ [RPAREN]
    /\ forallb isspace ws = true /\ ~ In LF a
    /\ ident <> [] /\ forallb isword ident = true /\ ~ In LF b.
Proof.
  unfold described_pattern. split.
  - intro H. repeat peel H.
    repeat match goal with
           | E : cls_test (Lit _) _ = true |- _ => apply lit_test in E; subst
           end.
    match goal with
    | Hws : forallb (cls_test Space) ?ws = true,
      Ha : forallb (cls_test Dot) ?a = true,
      Hc : cls_test Word ?c = true,
      Hr : forallb (cls_test Word) ?r = true,
      Hb : forallb (cls_test Dot) ?b = true |- _ =>
        exists ws, a, (c :: r), b;
        apply dots_iff in Ha; apply dots_iff in Hb;
        repeat split; auto;
        [discriminate | simpl; unfold isword at 1; now rewrite Hc]
    end.
  - intros (ws & a & ident & b & -> & Hws & Ha & Hne & Hid & Hb).
    destruct ident as [|c r]; [congruence|].
    simpl in Hid. apply andb_true_iff in Hid as [Hc Hr].
    apply dots_iff in Ha, Hb.
    apply lang_star; [exact Hws|].
    apply lang_one; [apply N.eqb_refl|].
    apply lang_star; [exact Ha|].
    simpl app.
    apply lang_plus; [exact Hc|exact Hr|].
    apply lang_one; [apply N.eqb_refl|].
    apply lang_star; [exact Hb|].
    apply lang_one; [apply N.eqb_refl|].
    constructor.
Qed.

End Pattern.

(** ** Lines of a file *)

Ltac norm_app :=
  repeat (rewrite <- app_assoc || rewrite <- app_comm_cons); simpl app.

Lemma in_removelast {A} (x : A) l : In x (removelast l) -> In x l.
Proof.
  induction l as [|y l IH]; simpl; [tauto|].
  destruct l as [|z l]; [simpl; tauto|].
  intros [->|H]; [now left|right; now apply IH].
Qed.

Lemma one_line_prefix l1 x l2 : one_line (l1 ++ x :: l2) -> ~ In LF l1.
Proof.
  unfold one_line. intros H Hin. apply H.
  rewrite removelast_app by discriminate. apply in_or_app. now left.
Qed.

Lemma one_line_ended cur : ~ In LF cur -> one_line (rev (LF :: cur)).
Proof.
  unfold one_line. simpl. rewrite removelast_last, <- in_rev. tauto.
Qed.

Lemma one_line_open cur : ~ In LF cur -> one_line (rev cur).
Proof.
  unfold one_line. intros H Hin. apply in_removelast in Hin.
  now apply in_rev in Hin.
Qed.

Lemma readlines_from_one_line n :
  forall text cur,
    length text <= n -> ~ In LF cur ->
    forall line, In line (readlines_from cur text) -> one_line line.
Proof.
  induction n as [|n IH]; intros text cur Hlen Hcur line Hin.
  - destruct text; [|simpl in Hlen; lia].
    simpl in Hin. destruct cur; [contradiction|].
    destruct Hin as [<-|[]]. now apply one_line_open.
  - destruct text as [|c rest].
    + simpl in Hin. destruct cur; [contradiction|].
      destruct Hin as [<-|[]]. now apply one_line_open.
    + simpl in Hlen. cbn [readlines_from] in Hin.
      destruct (c =? LF)%N eqn:Ec.
      * destruct Hin as [<-|Hin]; [now apply one_line_ended|].
        apply (IH rest []); auto; lia.
      * destruct (c =? CR)%N.
        -- destruct rest as [|d rest'].
           ++ destruct Hin as [<-|[]]. now apply one_line_ended.
           ++ simpl in Hlen.
              destruct (d =? LF)%N;
                (destruct Hin as [<-|Hin]; [now apply one_line_ended|]).
              ** apply (IH rest' []); auto; lia.
              ** apply (IH (d :: rest') []); auto; simpl; lia.
        -- apply (IH rest (c :: cur)); auto; [lia|].
           apply N.eqb_neq in Ec. simpl. intuition congruence.
Qed.

Lemma readlines_one_line content line :
  In line (readlines content) -> one_line line.
Proof.
  apply (readlines_from_one_line (n := length content)); auto.
Qed.

(** The first loop of [scan_file] keeps the matched lines, in order. *)
Lemma collect_commented_from lines : forall acc,
  fold_left (fun commented_lines line =>
               if commented_code_match line
               then commented_lines ++ [strip line]
               else commented_lines) lines acc
  = acc ++ map strip (filter commented_code_match lines).
Proof.
  induction lines as [|l lines IH]; intro acc; simpl.
  - now rewrite app_nil_r.
  - rewrite IH. destruct (commented_code_match l); simpl; [|reflexivity].
    now rewrite <- app_assoc.
Qed.

Lemma collect_commented_eq lines :
  collect_commented lines = map strip (filter commented_code_match lines).
Proof. apply (collect_commented_from lines []). Qed.

(** ** The pattern on the lines of a file *)

Lemma commented_code_match_iff line :
  commented_code_match line = true <->
  exists ws a ident sp b rest,
    line = ws ++ HASH :: a ++ ident ++ sp ++ LPAREN :: b ++ RPAREN :: rest
    /\ forallb isspace ws = true /\ ~ In LF a
    /\ ident <> [] /\ forallb isword ident = true
    /\ forallb isspace sp = true /\ ~ In LF b.
Proof.
  unfold commented_code_match. rewrite ReFacts.run_iff. split.
  - intros (pre & rest & -> & L).
    apply lang_commented_code_pattern in L
      as (ws & a & ident & sp & b & -> & H).
    exists ws, a, ident, sp, b, rest. split; [|exact H].
    norm_app. reflexivity.
  - intros (ws & a & ident & sp & b & rest & -> & H).
    exists (ws ++ HASH :: a ++ ident ++ sp ++ LPAREN :: b ++ [RPAREN]), rest.
    split.
    + norm_app. reflexivity.
    + apply lang_commented_code_pattern. exists ws, a, ident, sp, b. auto.
Qed.

(** C2 (as amended): on every line of a file, the test of [scan_file]
    holds exactly when the line is: white space (possibly none), a [#],
    any characters, one or more identifier characters, white space
    (possibly none), a [(], any characters, a [)], and anything after. *)
Theorem commented_code_match_on_lines content line :
  In line (readlines content) ->
  (commented_code_match line = true <-> looks_like_call line).
Proof.
  intro Hin. apply readlines_one_line in Hin.
  rewrite commented_code_match_iff. unfold looks_like_call. split.
  - intros (ws & a & ident & sp & b & rest & E & Hws & _ & Hne & Hid & Hsp & _).
    exists ws, a, ident, sp, b, rest. auto.
  - intros (ws & a & ident & sp & b & rest & E & Hws & Hne & Hid & Hsp).
    exists ws, a, ident, sp, b, rest. subst line.
    assert (Hpre : ~ In LF (ws ++ HASH :: a ++ ident ++ sp ++ LPAREN :: b)).
    { apply one_line_prefix with (x := RPAREN) (l2 := rest).
      norm_app. exact Hin. }
    repeat split; auto; intro Hc; apply Hpre.
    + apply in_or_app. right. right. apply in_or_app. now left.
    + apply in_or_app. right. right. apply in_or_app. right.
      apply in_or_app. right. apply in_or_app. right. now right.
Qed.

Lemma commented_code_match_on_lines_witness :
  let content := str "x = f(1)" ++ LF :: str "  # total(a, b)" ++ [LF] in
  let line := str "  # total(a, b)" ++ [LF] in
  In line (readlines content)
  /\ (commented_code_match line = true <-> looks_like_call line).
Proof.
  intros content line.
  assert (Hin : In line (readlines content)).
  { vm_compute. right. left. reflexivity. }
  split; [exact Hin|].
  exact (commented_code_match_on_lines content line Hin).
Defined.

Lemma tight_call_run line :
  ~ In LF line -> looks_like_tight_call line ->
  Re.run described_pattern line = true.
Proof.
  intros Hlf (ws & a & ident & b & rest & E & Hws & Hne & Hid).
  apply ReFacts.run_iff.
  exists (ws ++ HASH :: a ++ ident ++ LPAREN :: b ++ [RPAREN]), rest.
  split; [subst line; norm_app; reflexivity|].
  apply lang_described_pattern. exists ws, a, ident, b.
  repeat split; auto; intro Hc; apply Hlf; subst line.
  - apply in_or_app. right. right. apply in_or_app. now left.
  - apply in_or_app. right. right. apply in_or_app. right.
    apply in_or_app. right. right. apply in_or_app. now left.
Qed.

(** C2 (as stated) fails: with a blank between the identifier and the
    parenthesis the line is still matched, although it is not of the
    described shape. *)
Lemma spaced_call_is_matched :
  commented_code_match (str "# total (a, b)") = true
  /\ ~ looks_like_tight_call (str "# total (a, b)")
  /\ Re.run described_pattern (str "# total (a, b)") = false.
Proof.
  split; [reflexivity|]. split; [|reflexivity].
  intro H. apply tight_call_run in H.
  - vm_compute in H. discriminate.
  - vm_compute. intuition discriminate.
Qed.

(** ** The walk *)


Lemma files_of_in es name d :
  In (name, d) (files_of es) <-> In (name, File d) es.
Proof.
  induction es as [|[n [d'|l]] es IH]; simpl.
  - tauto.
  - rewrite IH. split; (intros [E|H]; [left; congruence|now right]).
  - rewrite IH. split; [now right|]. intros [E|H]; [discriminate|exact H].
Qed.

Lemma os_walk_file_in n :
  forall top step name d,
    In step (os_walk top n) -> In (name, d) (ws_files step) ->
    file_in top n (ws_root step) name d.
Proof.
  induction n as [d'| |es IH] using node_induction;
    intros top step name d Hstep Hfile; simpl in Hstep; try contradiction.
  destruct Hstep as [<-|Hstep].
  - simpl in *. apply file_here. now apply files_of_in.
  - apply in_flat_map in Hstep as ([sub child] & Hin & Hstep).
    rewrite Forall_forall in IH. specialize (IH _ Hin). simpl in IH.
    destruct child as [?|l]; [contradiction|].
    eapply file_below; [exact Hin|]. eapply IH; eauto.
Qed.

Lemma file_in_os_walk top n root name d :
  file_in top n root name d ->
  exists step, In step (os_walk top n) /\ ws_root step = root
               /\ In (name, d) (ws_files step).
Proof.
  induction 1 as [top es name d Hin|top es sub child root name d Hin Hf IH].
  - eexists. split; [left; reflexivity|]. split; [reflexivity|].
    simpl. now apply files_of_in.
  - destruct IH as (step & Hstep & Hroot & Hfile).
    exists step. split; [|auto]. simpl. right.
    apply in_flat_map. exists (sub, child). split; [exact Hin|].
    destruct child; [contradiction|exact Hstep].
Qed.

(** The files that [scan_directory] hands to [scan_file] are the files of
    the tree that have a recognized suffix. *)
Lemma scanned_files_iff directory at_dir p d :
  In (p, d) (scanned_files directory at_dir) <->
  exists root name,
    p = path_join root name /\ scanned directory at_dir root name d.
Proof.
  unfold scanned_files, scanned, file_under, scanned_of_step. split.
  - intro H. apply in_flat_map in H as (step & Hstep & H).
    apply in_map_iff in H as ([name d'] & E & H). simpl in E.
    injection E as <- <-. apply filter_In in H as [H Hq]. simpl in Hq.
    destruct at_dir as [n|]; [|contradiction]. simpl in Hstep.
    exists (ws_root step), name. split; [reflexivity|]. split; [|exact Hq].
    exists n. split; [reflexivity|]. now apply os_walk_file_in.
  - intros (root & name & -> & (n & -> & Hf) & Hq).
    apply file_in_os_walk in Hf as (step & Hstep & <- & Hfile).
    apply in_flat_map. exists step. split; [exact Hstep|].
    apply in_map_iff. exists (name, d). split; [reflexivity|].
    apply filter_In. auto.
Qed.

(** ** The scan of one file *)

Lemma world_unchanged w : World (stdout w ++ []) (opened w ++ []) = w.
Proof. destruct w. simpl. now rewrite !app_nil_r. Qed.

Lemma print_lines lines : forall w,
  for_loop lines (fun line (_ : unit) => print (arrow_line line)) tt w
  = (World (stdout w ++ map arrow_line lines) (opened w), Ok tt).
Proof.
  induction lines as [|l lines IH]; intro w; simpl.
  - unfold ret. destruct w. simpl. now rewrite app_nil_r.
  - unfold bind, print. rewrite IH. simpl. now rewrite <- app_assoc.
Qed.

Lemma scan_file_text filepath content w :
  scan_file filepath (Text content) w
  = (World (stdout w ++ report (filepath, Text content))
           (opened w ++ [filepath]),
     Ok (offending (filepath, Text content))).
Proof.
  unfold scan_file, report, offending, bind, open_readlines. simpl.
  rewrite collect_commented_eq. fold (matched_lines content).
  destruct (matched_lines content) as [|l more].
  - unfold ret. simpl. now rewrite app_nil_r.
  - unfold print at 1. rewrite print_lines. unfold ret. simpl.
    now rewrite <- app_assoc.
Qed.

Lemma scan_file_unreadable filepath e w :
  scan_file filepath (Unreadable e) w
  = (World (stdout w) (opened w ++ [filepath]), Raise (IOError e)).
Proof. reflexivity. Qed.

(** ** The scan of a directory *)

Lemma scan_outcome_nil has_error w : scan_outcome [] has_error w = (w, Ok has_error).
Proof.
  unfold scan_outcome. simpl. rewrite world_unchanged, orb_false_r.
  reflexivity.
Qed.

Lemma scan_outcome_text p content files has_error w :
  scan_outcome ((p, Text content) :: files) has_error w
  = scan_outcome files (has_error || offending (p, Text content))
      (World (stdout w ++ report (p, Text content)) (opened w ++ [p])).
Proof.
  unfold scan_outcome. simpl.
  destruct (until_unreadable files) as [done failure]. simpl.
  rewrite <- !app_assoc, orb_assoc. reflexivity.
Qed.

Lemma scan_outcome_unreadable p e files has_error w :
  scan_outcome ((p, Unreadable e) :: files) has_error w
  = (World (stdout w) (opened w ++ [p]), Raise (IOError e)).
Proof.
  unfold scan_outcome. simpl. now rewrite app_nil_r.
Qed.

Lemma scan_outcome_app files1 : forall files2 has_error w,
  scan_outcome (files1 ++ files2) has_error w
  = match scan_outcome files1 has_error w with
    | (w', Ok h) => scan_outcome files2 h w'
    | (w', Raise e) => (w', Raise e)
    end.
Proof.
  induction files1 as [|[p [content|e]] files1 IH]; intros files2 h w.
  - now rewrite scan_outcome_nil.
  - simpl app. rewrite !scan_outcome_text. apply IH.
  - simpl app. now rewrite !scan_outcome_unreadable.
Qed.

Lemma files_loop root dirs files : forall has_error w,
  for_loop files (file_body root) has_error w
  = scan_outcome (scanned_of_step (WalkStep root dirs files)) has_error w.
Proof.
  unfold scanned_of_step. cbn [ws_root ws_files].
  induction files as [|[name d] files IH]; intros h w.
  - cbn [for_loop filter map]. now rewrite scan_outcome_nil.
  - cbn [for_loop filter map fst snd]. unfold bind, file_body at 1.
    cbn [fst snd].
    destruct (endswith name SUFFIXES); cbn [map fst snd].
    + destruct d as [content|e]; unfold bind.
      * rewrite scan_file_text, scan_outcome_text.
        destruct (offending _); unfold ret; rewrite IH;
          [now rewrite orb_true_r|now rewrite orb_false_r].
      * now rewrite scan_file_unreadable, scan_outcome_unreadable.
    + unfold ret. apply IH.
Qed.

Lemma steps_loop steps : forall has_error w,
  for_loop steps
    (fun step has_error =>
       for_loop (ws_files step) (file_body (ws_root step)) has_error)
    has_error w
  = scan_outcome (flat_map scanned_of_step steps) has_error w.
Proof.
  induction steps as [|[root dirs files] steps IH]; intros h w; simpl.
  - now rewrite scan_outcome_nil.
  - unfold bind. rewrite (files_loop root dirs files), scan_outcome_app.
    destruct (scan_outcome _ h w) as [w' [h'|e]]; [apply IH|reflexivity].
Qed.

(** [scan_directory] written out. *)
Lemma scan_directory_outcome directory at_dir w :
  scan_directory directory at_dir w
  = scan_outcome (scanned_files directory at_dir) false w.
Proof. apply steps_loop. Qed.

(** ** Readable trees *)

Lemma until_unreadable_all files :
  (forall p d, In (p, d) files -> exists content, d = Text content) ->
  until_unreadable files = (files, None).
Proof.
  induction files as [|[p [content|e]] files IH]; intro H; simpl.
  - reflexivity.
  - rewrite IH; [reflexivity|]. intros q d Hin. apply (H q d). now right.
  - destruct (H p (Unreadable e)) as [c Hc]; [now left|discriminate].
Qed.

Lemma all_readable_files directory at_dir :
  all_readable directory at_dir ->
  until_unreadable (scanned_files directory at_dir)
  = (scanned_files directory at_dir, None).
Proof.
  intro H. apply until_unreadable_all. intros p d Hin.
  apply scanned_files_iff in Hin as (root & name & _ & Hs).
  exact (H root name d Hs).
Qed.

Lemma until_unreadable_done files done :
  until_unreadable files = (done, None) -> done = files.
Proof.
  revert done. induction files as [|[p [content|e]] files IH];
    intros done H; simpl in H.
  - congruence.
  - destruct (until_unreadable files) as [done' failure].
    injection H as <- ->. f_equal. now apply IH.
  - discriminate.
Qed.

Lemma offending_iff p d : offending (p, d) = true <-> has_match d.
Proof.
  unfold offending, has_match, matched_lines. simpl. split.
  - destruct d as [content|e]; [|discriminate].
    destruct (filter commented_code_match (readlines content))
      as [|line more] eqn:E; [discriminate|]. intros _.
    assert (Hin : In line (filter commented_code_match (readlines content)))
      by (rewrite E; now left).
    apply filter_In in Hin as [Hin Hm]. eauto.
  - intros (content & line & -> & Hin & Hm).
    assert (H : In line (filter commented_code_match (readlines content)))
      by (apply filter_In; auto).
    destruct (filter commented_code_match (readlines content));
      [contradiction|reflexivity].
Qed.

Lemma some_offending_iff directory at_dir :
  existsb offending (scanned_files directory at_dir) = true <->
  exists root name d, scanned directory at_dir root name d /\ has_match d.
Proof.
  rewrite existsb_exists. split.
  - intros ([p d] & Hin & Hoff). apply offending_iff in Hoff.
    apply scanned_files_iff in Hin as (root & name & _ & Hs). eauto.
  - intros (root & name & d & Hs & Hm).
    exists (path_join root name, d). split.
    + apply scanned_files_iff. eauto.
    + now apply offending_iff.
Qed.

Lemma scan_directory_readable directory at_dir w :
  all_readable directory at_dir ->
  scan_directory directory at_dir w
  = (World (stdout w ++ flat_map report (scanned_files directory at_dir))
           (opened w ++ map fst (scanned_files directory at_dir)),
     Ok (existsb offending (scanned_files directory at_dir))).
Proof.
  intro H. rewrite scan_directory_outcome. unfold scan_outcome.
  rewrite (all_readable_files H). now rewrite app_nil_r.
Qed.

(** When [scan_directory] returns, every scanned file has been read and
    the flag tells whether one of them has a matching line. *)
Lemma scan_directory_returns directory at_dir w w' found :
  scan_directory directory at_dir w = (w', Ok found) ->
  found = existsb offending (scanned_files directory at_dir).
Proof.
  rewrite scan_directory_outcome. unfold scan_outcome.
  destruct (until_unreadable _) as [done [[p e]|]] eqn:E; [discriminate|].
  apply until_unreadable_done in E. subst done. simpl. congruence.
Qed.

(** ** The claims on [scan_directory] *)

(** C4: [scan_directory] returns true if and only if at least one scanned
    file (a file whose name ends in a recognized suffix) has at least one
    line matching the detection pattern: whenever it returns, its value is
    true exactly in that case, and it does return on every tree whose
    scanned files can all be read. *)
Theorem scan_directory_true_iff directory at_dir w :
  (forall w' found,
      scan_directory directory at_dir w = (w', Ok found) ->
      (found = true <->
       exists root name d,
         scanned directory at_dir root name d /\ has_match d))
  /\ (all_readable directory at_dir ->
      exists w' found,
        scan_directory directory at_dir w = (w', Ok found)
        /\ (found = true <->
            exists root name d,
              scanned directory at_dir root name d /\ has_match d)).
Proof.
  split.
  - intros w' found H. apply scan_directory_returns in H. subst found.
    apply some_offending_iff.
  - intro H. rewrite (scan_directory_readable w H).
    eexists. eexists. split; [reflexivity|]. apply some_offending_iff.
Qed.

Lemma all_readable_check directory at_dir :
  forallb is_text (map snd (scanned_files directory at_dir)) = true ->
  all_readable directory at_dir.
Proof.
  intros H root name d Hs. rewrite forallb_forall in H.
  assert (Hin : In (path_join root name, d) (scanned_files directory at_dir))
    by (apply scanned_files_iff; eauto).
  specialize (H d (in_map snd _ _ Hin)).
  destruct d; [eauto|discriminate].
Qed.

Lemma scan_directory_true_iff_witness :
  all_readable TARGET_DIR (Some sample_tree)
  /\ exists w' found,
       scan_directory TARGET_DIR (Some sample_tree) start = (w', Ok found)
       /\ (found = true <->
           exists root name d,
             scanned TARGET_DIR (Some sample_tree) root name d
             /\ has_match d).
Proof.
  split.
  - apply all_readable_check. reflexivity.
  - apply (proj2 (scan_directory_true_iff TARGET_DIR (Some sample_tree) start)).
    apply all_readable_check. reflexivity.
Defined.

(** C1 (as stated) fails: with nothing at the target path the walk yields
    nothing, [scan_directory] returns false and the run exits with 0. *)
Lemma missing_root_exits_zero :
  scan_directory TARGET_DIR None start = (start, Ok false)
  /\ run_script None
     = (World [scanning_banner; clean_banner] [], Exited 0).
Proof. split; reflexivity. Qed.

(** C1 (as amended): if the root directory does not exist or is not a
    directory, nothing is walked and nothing is opened: [scan_directory]
    returns false, and the run prints the two banners and exits with 0. *)
Theorem scan_directory_without_root directory at_dir w :
  at_dir = None \/ (exists d, at_dir = Some (File d)) ->
  scan_directory directory at_dir w = (w, Ok false)
  /\ run_script at_dir
     = (World [scanning_banner; clean_banner] [], Exited 0).
Proof.
  intros [->|[d ->]]; split; reflexivity.
Qed.

Lemma scan_directory_without_root_witness :
  (Some (File (Text (str "# total(a, b)"))) = None
   \/ exists d, Some (File (Text (str "# total(a, b)"))) = Some (File d))
  /\ scan_directory TARGET_DIR (Some (File (Text (str "# total(a, b)")))) start
     = (start, Ok false)
  /\ run_script (Some (File (Text (str "# total(a, b)"))))
     = (World [scanning_banner; clean_banner] [], Exited 0).
Proof.
  assert (H : Some (File (Text (str "# total(a, b)"))) = None
              \/ exists d, Some (File (Text (str "# total(a, b)")))
                           = Some (File d))
    by (right; eexists; reflexivity).
  split; [exact H|].
  exact (scan_directory_without_root TARGET_DIR start H).
Defined.

(** ** The claims on [scan_file] *)

(** C3 (as stated) fails: two files whose matched lines differ give the
    same return value, which is a flag and not the sequence. *)
Lemma scan_file_returns_a_flag :
  matched_lines (str "# f(x)" ++ [LF]) <> matched_lines (str "# g(y)" ++ [LF])
  /\ snd (scan_file (str "src/a.py") (Text (str "# f(x)" ++ [LF])) start)
     = Ok true
  /\ snd (scan_file (str "src/a.py") (Text (str "# g(y)" ++ [LF])) start)
     = Ok true.
Proof.
  split; [|split; reflexivity]. vm_compute. discriminate.
Qed.

(** C3 (as amended): for every readable file, [scan_file] collects the
    ordered sequence of the file's matched lines, trimmed of surrounding
    white space, and prints it under a header when it is not empty; what
    it returns is the flag telling whether that sequence is non-empty,
    false meaning the file is clean. *)
Theorem scan_file_collects filepath content w :
  scan_file filepath (Text content) w
  = (World
       (stdout w
        ++ match matched_lines content with
           | [] => []
           | _ :: _ =>
               found_header filepath
               :: map arrow_line (matched_lines content)
           end)
       (opened w ++ [filepath]),
     Ok (match matched_lines content with
         | [] => false
         | _ :: _ => true
         end)).
Proof.
  rewrite scan_file_text. unfold report, offending. simpl.
  destruct (matched_lines content); reflexivity.
Qed.

Section KeptInOrder.
Variables (A B : Type) (keep : A -> bool) (f : A -> B).

Lemma kept_has_source l : forall i b,
  nth_error (map f (filter keep l)) i = Some b ->
  exists i' x, nth_error l i' = Some x /\ keep x = true /\ b = f x.
Proof.
  induction l as [|x l IH]; intros i b H; simpl in H.
  - destruct i; discriminate.
  - destruct (keep x) eqn:K.
    + destruct i as [|i]; simpl in H.
      * injection H as <-. exists 0, x. auto.
      * destruct (IH _ _ H) as (i' & y & Hy & Ky & ->).
        exists (S i'), y. auto.
    + destruct (IH _ _ H) as (i' & y & Hy & Ky & ->).
      exists (S i'), y. auto.
Qed.

Lemma kept_in_order l : forall i j a b,
  i < j ->
  nth_error (map f (filter keep l)) i = Some a ->
  nth_error (map f (filter keep l)) j = Some b ->
  exists i' j' x y,
    i' < j' /\ nth_error l i' = Some x /\ nth_error l j' = Some y
    /\ keep x = true /\ keep y = true /\ a = f x /\ b = f y.
Proof.
  induction l as [|x l IH]; intros i j a b Hij Ha Hb; simpl in Ha, Hb.
  - destruct i; discriminate.
  - destruct (keep x) eqn:K.
    + destruct j as [|j]; [lia|]. simpl in Hb.
      destruct i as [|i]; simpl in Ha.
      * injection Ha as <-.
        destruct (kept_has_source _ _ Hb) as (j' & y & Hy & Ky & ->).
        exists 0, (S j'), x, y. repeat split; auto. lia.
      * destruct (IH i j a b) as (i' & j' & u & v & Hlt & Hu & Hv & R);
          [lia|assumption|assumption|].
        exists (S i'), (S j'), u, v. repeat split; try tauto. lia.
    + destruct (IH i j a b) as (i' & j' & u & v & Hlt & Hu & Hv & R);
        [lia|assumption|assumption|].
      exists (S i'), (S j'), u, v. repeat split; try tauto. lia.
Qed.
End KeptInOrder.

(** C7: the lines collected by [scan_file] are the matched lines of the
    file, each trimmed of surrounding white space, in their order of
    appearance: of two collected lines the earlier one comes from an
    earlier line of the file. *)
Theorem collected_in_file_order content :
  let lines := readlines content in
  collect_commented lines = map strip (filter commented_code_match lines)
  /\ forall i j a b,
       i < j ->
       nth_error (collect_commented lines) i = Some a ->
       nth_error (collect_commented lines) j = Some b ->
       exists i' j' la lb,
         i' < j'
         /\ nth_error lines i' = Some la /\ nth_error lines j' = Some lb
         /\ commented_code_match la = true /\ commented_code_match lb = true
         /\ a = strip la /\ b = strip lb.
Proof.
  intro lines. split; [apply collect_commented_eq|].
  rewrite collect_commented_eq. apply kept_in_order.
Qed.

(** ** The run *)

Lemma main_outcome at_target w :
  main at_target w
  = match scan_outcome (scanned_files TARGET_DIR at_target) false
            (World (stdout w ++ [scanning_banner]) (opened w)) with
    | (w', Ok true) =>
        (World (stdout w' ++ [failed_banner]) (opened w'),
         Raise (SystemExit 1))
    | (w', Ok false) =>
        (World (stdout w' ++ [clean_banner]) (opened w'),
         Raise (SystemExit 0))
    | (w', Raise e) => (w', Raise e)
    end.
Proof.
  unfold main, bind, print at 1. rewrite scan_directory_outcome.
  destruct (scan_outcome _ _ _) as [w' [[|]|e]]; reflexivity.
Qed.

Lemma scan_outcome_ending files has_error w :
  match snd (scan_outcome files has_error w) with
  | Ok found =>
      found = has_error || existsb offending files
      /\ snd (until_unreadable files) = None
  | Raise (IOError e) => exists p, snd (until_unreadable files) = Some (p, e)
  | Raise (SystemExit _) => False
  end.
Proof.
  unfold scan_outcome.
  destruct (until_unreadable files) as [done [[p e]|]] eqn:E; simpl.
  - eauto.
  - apply until_unreadable_done in E. subst. auto.
Qed.

Lemma run_script_ending at_target :
  snd (run_script at_target)
  = match snd (scan_outcome (scanned_files TARGET_DIR at_target) false
                 (World [scanning_banner] [])) with
    | Ok true => Exited 1
    | Ok false => Exited 0
    | Raise (IOError e) => Uncaught e
    | Raise (SystemExit code) => Exited code
    end.
Proof.
  unfold run_script. rewrite main_outcome. simpl.
  destruct (scan_outcome _ _ _) as [w' [[|]|[e|code]]]; reflexivity.
Qed.

(** C5: the run ends with exit code 0 exactly when no scanned file has a
    matching line and with exit code 1 exactly when one has, on a tree
    whose scanned files can all be read; and whatever the tree, an exit
    code the script produces is 0 or 1, each for that reason only. *)
Theorem exit_code_reports_matches at_target :
  let found_any :=
    exists root name d,
      scanned TARGET_DIR at_target root name d /\ has_match d in
  let ended := snd (run_script at_target) in
  (forall code,
      ended = Exited code ->
      (code = 0%Z /\ ~ found_any) \/ (code = 1%Z /\ found_any))
  /\ (all_readable TARGET_DIR at_target ->
      (ended = Exited 0 <-> ~ found_any)
      /\ (ended = Exited 1 <-> found_any)).
Proof.
  intros found_any ended.
  assert (Hany : existsb offending (scanned_files TARGET_DIR at_target) = true
                 <-> found_any) by apply some_offending_iff.
  subst ended. rewrite run_script_ending.
  pose proof (scan_outcome_ending (scanned_files TARGET_DIR at_target) false
                (World [scanning_banner] [])) as H.
  split.
  - intros code E.
    destruct (snd (scan_outcome _ _ _)) as [[|]|[e|c]];
      try discriminate; try contradiction;
      injection E as <-; destruct H as [H _]; simpl in H.
    + right. split; [reflexivity|]. apply Hany. now symmetry.
    + left. split; [reflexivity|]. rewrite <- Hany, <- H. discriminate.
  - intro Hr. apply all_readable_files in Hr.
    destruct (snd (scan_outcome _ _ _)) as [[|]|[e|c]];
      try contradiction.
    + destruct H as [H _]. simpl in H. symmetry in H. apply Hany in H.
      split; split; try discriminate; tauto.
    + destruct H as [H _]. simpl in H.
      assert (~ found_any) by (rewrite <- Hany, <- H; discriminate).
      split; split; try discriminate; tauto.
    + destruct H as [p H]. rewrite Hr in H. discriminate.
Qed.

Lemma exit_code_reports_matches_witness :
  all_readable TARGET_DIR (Some sample_tree)
  /\ (snd (run_script (Some sample_tree)) = Exited 1 <->
      exists root name d,
        scanned TARGET_DIR (Some sample_tree) root name d /\ has_match d).
Proof.
  assert (H : all_readable TARGET_DIR (Some sample_tree))
    by (apply all_readable_check; reflexivity).
  split; [exact H|].
  exact (proj2 (proj2 (exit_code_reports_matches (Some sample_tree)) H)).
Defined.

(** ** Files the scan is not about *)

Lemma with_unscanned_dir g l : exists l', with_unscanned g (Dir l) = Dir l'.
Proof. destruct l as [es|]; simpl; eauto. Qed.

Lemma scanned_of_step_with_unscanned g top ds ds' es :
  scanned_of_step
    (WalkStep top ds'
       (files_of
          (map (fun e : pystr * node =>
                  let (name, child) := e in
                  (name,
                   match child with
                   | File d =>
                       File (if endswith name SUFFIXES then d else g name d)
                   | Dir _ => with_unscanned g child
                   end)) es)))
  = scanned_of_step (WalkStep top ds (files_of es)).
Proof.
  unfold scanned_of_step. cbn [ws_root ws_files].
  induction es as [|[name [d|l]] es IH]; cbn [map files_of].
  - reflexivity.
  - cbn [filter fst snd]. destruct (endswith name SUFFIXES) eqn:Q.
    + cbn [map fst snd]. now rewrite IH.
    + exact IH.
  - destruct (with_unscanned_dir g l) as [l' ->]. exact IH.
Qed.

Lemma scanned_files_with_unscanned g n : forall top,
  flat_map scanned_of_step (os_walk top (with_unscanned g n))
  = flat_map scanned_of_step (os_walk top n).
Proof.
  induction n as [d| |es IH] using node_induction; intro top;
    try reflexivity.
  cbn [with_unscanned os_walk flat_map].
  rewrite (scanned_of_step_with_unscanned g top (dirs_of es)). f_equal.
  induction es as [|[name [d|l]] es IHes]; cbn [map flat_map].
  - reflexivity.
  - apply IHes. now inversion IH.
  - inversion IH as [|? ? Hchild Hrest]; subst. cbn [snd] in Hchild.
    rewrite !flat_map_app, (IHes Hrest). f_equal.
    specialize (Hchild (path_join top name)).
    destruct (with_unscanned_dir g l) as [l' E]. rewrite E in *.
    exact Hchild.
Qed.

Lemma until_unreadable_split files :
  exists rest,
    files = fst (until_unreadable files)
            ++ match snd (until_unreadable files) with
               | Some (p, e) => (p, Unreadable e) :: rest
               | None => []
               end.
Proof.
  induction files as [|[p [content|e]] files [rest IH]]; simpl.
  - exists []. reflexivity.
  - exists rest. destruct (until_unreadable files) as [done failure].
    simpl in *. now rewrite <- IH.
  - exists files. reflexivity.
Qed.

Lemma scan_outcome_opened files has_error w p :
  In p (opened (fst (scan_outcome files has_error w))) ->
  In p (opened w) \/ exists d, In (p, d) files.
Proof.
  unfold scan_outcome. destruct (until_unreadable_split files) as [rest E].
  destruct (until_unreadable files) as [done failure]. simpl in *.
  intro H. apply in_app_or in H as [H|H]; [now left|right].
  apply in_app_or in H as [H|H].
  - apply in_map_iff in H as ([q d] & <- & H). exists d. rewrite E.
    apply in_or_app. now left.
  - destruct failure as [[q e]|]; [|contradiction].
    destruct H as [<-|[]]. exists (Unreadable e). rewrite E.
    apply in_or_app. right. now left.
Qed.

Lemma main_opened at_target w :
  opened (fst (main at_target w))
  = opened (fst (scan_outcome (scanned_files TARGET_DIR at_target) false
                   (World (stdout w ++ [scanning_banner]) (opened w)))).
Proof.
  rewrite main_outcome.
  destruct (scan_outcome _ _ _) as [w' [[|]|e]]; reflexivity.
Qed.

Lemma run_script_opened at_target p :
  In p (opened (fst (run_script at_target))) ->
  exists root name d,
    p = path_join root name /\ scanned TARGET_DIR at_target root name d.
Proof.
  unfold run_script.
  destruct (main at_target start) as [w r] eqn:E. simpl.
  replace w with (fst (main at_target start)) by now rewrite E.
  rewrite main_opened. intro H.
  apply scan_outcome_opened in H as [[]|[d H]].
  apply scanned_files_iff in H as (root & name & -> & Hs). eauto.
Qed.

(** C6: a file whose name does not end in [.py], [.js] or [.ts] is never
    opened, and its content has no effect: replacing the data of such
    files at will leaves what is printed, what is opened and the exit
    status unchanged, and every path that is opened is that of a file of
    the tree with a recognized suffix. *)
Theorem unscanned_files_are_ignored g at_target :
  run_script (option_map (with_unscanned g) at_target)
  = run_script at_target
  /\ forall p,
       In p (opened (fst (run_script at_target))) ->
       exists root name d,
         p = path_join root name
         /\ file_under TARGET_DIR at_target root name d
         /\ endswith name SUFFIXES = true.
Proof.
  split.
  - unfold run_script. rewrite !main_outcome.
    replace (scanned_files TARGET_DIR (option_map (with_unscanned g) at_target))
      with (scanned_files TARGET_DIR at_target); [reflexivity|].
    destruct at_target as [n|]; [|reflexivity].
    symmetry. apply scanned_files_with_unscanned.
  - apply run_script_opened.
Qed.

Lemma unscanned_files_are_ignored_witness :
  run_script
    (option_map (with_unscanned (fun _ _ => Unreadable OSError))
       (Some sample_tree))
  = run_script (Some sample_tree)
  /\ exists root name d,
       str "src/sub/b.py" = path_join root name
       /\ file_under TARGET_DIR (Some sample_tree) root name d
       /\ endswith name SUFFIXES = true.
Proof.
  destruct (unscanned_files_are_ignored (fun _ _ => Unreadable OSError)
              (Some sample_tree)) as [Hsame Hopened].
  split; [exact Hsame|]. apply Hopened.
  vm_compute. right. right. left. reflexivity.
Defined.

(** ** Repeating the run *)



(** ** No short cut *)

Lemma in_report p content line :
  In line (matched_lines content) ->
  In (found_header p) (report (p, Text content))
  /\ In (arrow_line line) (report (p, Text content)).
Proof.
  unfold report. simpl. intro H.
  destruct (matched_lines content) as [|l more] eqn:E; [contradiction|].
  split; [now left|]. right. exact (in_map arrow_line _ _ H).
Qed.

(** C9: on a tree whose scanned files can all be read, [scan_directory]
    opens every file with a recognized suffix, whatever was found before,
    and prints the header and the matched lines of every offending file:
    the paths opened are those of all the scanned files, and the output is
    made of all their reports. *)
Theorem scan_directory_scans_everything directory at_dir w :
  all_readable directory at_dir ->
  let w' := fst (scan_directory directory at_dir w) in
  opened w' = opened w ++ map fst (scanned_files directory at_dir)
  /\ stdout w' = stdout w ++ flat_map report (scanned_files directory at_dir)
  /\ forall root name content,
       scanned directory at_dir root name (Text content) ->
       In (path_join root name) (opened w')
       /\ forall line,
            In line (matched_lines content) ->
            In (found_header (path_join root name)) (stdout w')
            /\ In (arrow_line line) (stdout w').
Proof.
  intros H w'. subst w'. rewrite (scan_directory_readable w H). simpl.
  split; [reflexivity|]. split; [reflexivity|].
  intros root name content Hs.
  assert (Hin : In (path_join root name, Text content)
                   (scanned_files directory at_dir))
    by (apply scanned_files_iff; eauto).
  split.
  - apply in_or_app. right. now apply (in_map fst) in Hin.
  - intros line Hl.
    destruct (in_report (path_join root name) content line Hl) as [Hh Ha].
    split; apply in_or_app; right; apply in_flat_map; eauto.
Qed.

Lemma scan_directory_scans_everything_witness :
  all_readable TARGET_DIR (Some sample_tree)
  /\ opened (fst (scan_directory TARGET_DIR (Some sample_tree) start))
     = [str "src/a.py"; str "src/c.js"; str "src/sub/b.py"]
  /\ stdout (fst (scan_directory TARGET_DIR (Some sample_tree) start))
     = [found_header (str "src/c.js");
        arrow_line (str "# see formula: total(a,b) explained");
        found_header (str "src/sub/b.py");
        arrow_line (str "# total(a, b)")].
Proof.
  assert (H : all_readable TARGET_DIR (Some sample_tree))
    by (apply all_readable_check; reflexivity).
  split; [exact H|].
  destruct (scan_directory_scans_everything start H) as (Ho & Hs & _).
  split; [exact Ho|exact Hs].
Defined.

(** ** The suffix test *)

Lemma pystr_eqb_eq a b : pystr_eqb a b = true <-> a = b.
Proof.
  unfold pystr_eqb. destruct (list_eq_dec N.eq_dec a b); split;
    congruence.
Qed.

Lemma endswith1_iff s suffix :
  endswith1 s suffix = true <-> exists stem, s = stem ++ suffix.
Proof.
  unfold endswith1. rewrite andb_true_iff, Nat.leb_le, pystr_eqb_eq. split.
  - intros [_ E]. exists (firstn (length s - length suffix) s).
    rewrite <- E at 2. symmetry. apply firstn_skipn.
  - intros [stem ->]. rewrite length_app. split; [lia|].
    replace (length stem + length suffix - length suffix) with (length stem)
      by lia.
    rewrite skipn_app, skipn_all, Nat.sub_diag. reflexivity.
Qed.

Lemma endswith_suffixes_iff name :
  endswith name SUFFIXES = true <->
  exists stem,
    name = stem ++ str ".py" \/ name = stem ++ str ".js"
    \/ name = stem ++ str ".ts".
Proof.
  unfold endswith, SUFFIXES. cbn [existsb].
  rewrite !orb_true_iff, !endswith1_iff. split.
  - intros [[stem H]|[[stem H]|[[stem H]|H]]]; try discriminate;
      exists stem; tauto.
  - intros [stem [H|[H|H]]]; eauto 6.
Qed.

(** C10: the suffix test is an exact comparison of characters: a name
    qualifies just when it ends in [.py], [.js] or [.ts] as written, so
    [A.PY] and [b.Js] do not qualify; files so named are never opened
    whatever they hold, and every file that is opened has a name ending in
    exactly one of the three suffixes. *)
Theorem suffix_test_is_case_sensitive :
  (forall name,
      endswith name SUFFIXES = true <->
      exists stem,
        name = stem ++ str ".py" \/ name = stem ++ str ".js"
        \/ name = stem ++ str ".ts")
  /\ endswith (str "A.PY") SUFFIXES = false
  /\ endswith (str "b.Js") SUFFIXES = false
  /\ (forall d1 d2,
        run_script
          (Some (Dir (Some [(str "A.PY", File d1); (str "b.Js", File d2)])))
        = (World [scanning_banner; clean_banner] [], Exited 0))
  /\ forall at_target p,
       In p (opened (fst (run_script at_target))) ->
       exists root stem suffix d,
         p = path_join root (stem ++ suffix)
         /\ In suffix [str ".py"; str ".js"; str ".ts"]
         /\ file_under TARGET_DIR at_target root (stem ++ suffix) d.
Proof.
  split; [exact endswith_suffixes_iff|].
  split; [reflexivity|]. split; [reflexivity|].
  split; [intros d1 d2; reflexivity|].
  intros at_target p H.
  apply run_script_opened in H as (root & name & d & -> & Hf & Hq).
  apply endswith_suffixes_iff in Hq as [stem [-> | [-> | ->]]];
    exists root, stem; eexists; exists d;
    (split; [reflexivity|split; [|exact Hf]]); simpl; auto.
Qed.

Lemma suffix_test_is_case_sensitive_witness :
  exists root stem suffix d,
    str "src/sub/b.py" = path_join root (stem ++ suffix)
    /\ In suffix [str ".py"; str ".js"; str ".ts"]
    /\ file_under TARGET_DIR (Some sample_tree) root (stem ++ suffix) d.
Proof.
  apply (proj2 (proj2 (proj2 (proj2 suffix_test_is_case_sensitive)))).
  vm_compute. right. right. left. reflexivity.
Defined.

(** ** The scenarios of the description *)

Example scenario_print_only :
  commented_code_match (str "print(1)") = false.
Proof. reflexivity. Qed.

Example scenario_indented_comment :
  matched_lines (str "    # total(a, b)" ++ [LF]) = [str "# total(a, b)"].
Proof. reflexivity. Qed.

Example scenario_prose :
  commented_code_match (str "# see formula: total(a,b) explained") = true.
Proof. reflexivity. Qed.

Example scenario_double_slash :
  commented_code_match (str "// total(a,b)") = false.
Proof. reflexivity. Qed.

Example scenario_empty_tree :
  run_script (Some (Dir (Some [])))
  = (World [scanning_banner; clean_banner] [], Exited 0).
Proof. reflexivity. Qed.

Example scenario_sample_tree :
  run_script (Some sample_tree)
  = (World
       [scanning_banner;
        found_header (str "src/c.js");
        arrow_line (str "# see formula: total(a,b) explained");
        found_header (str "src/sub/b.py");
        arrow_line (str "# total(a, b)");
        failed_banner]
       [str "src/a.py"; str "src/c.js"; str "src/sub/b.py"],
     Exited 1).
Proof. reflexivity. Qed.

Example scenario_unreadable_file :
  run_script
    (Some (Dir (Some [(str "a.py", File (Text (str "# f(x)" ++ [LF])));
                      (str "b.py", File (Unreadable UnicodeDecodeError));
                      (str "c.py", File (Text (str "# g(y)" ++ [LF])))])))
  = (World
       [scanning_banner; found_header (str "src/a.py");
        arrow_line (str "# f(x)")]
       [str "src/a.py"; str "src/b.py"],
     Uncaught UnicodeDecodeError).
Proof. reflexivity. Qed.

(** * Further properties of the script *)

(** ** The pattern and the trimming *)

Lemma run_extend p s rest :
  Re.run p s = true -> Re.run p (s ++ rest) = true.
Proof.
  intro H. apply ReFacts.run_sound in H as (pre & tail & -> & L).
  rewrite <- app_assoc. now apply ReFacts.run_complete.
Qed.

(** X1: the pattern is not anchored at the end of the line: whatever is
    appended to a matched line, the line is still matched. *)
Theorem match_survives_trailing_text line rest :
  commented_code_match line = true ->
  commented_code_match (line ++ rest) = true.
Proof. apply run_extend. Qed.

Lemma match_survives_trailing_text_witness :
  commented_code_match (str "# total(a, b)") = true
  /\ commented_code_match (str "# total(a, b)" ++ str " explained elsewhere")
     = true.
Proof.
  assert (H : commented_code_match (str "# total(a, b)") = true)
    by reflexivity.
  split; [exact H|].
  exact (match_survives_trailing_text _ (str " explained elsewhere") H).
Defined.

Lemma space_is_not_hash c : isspace c = true -> (c =? HASH)%N = false.
Proof.
  intro H. destruct (c =? HASH)%N eqn:E; [|reflexivity].
  apply N.eqb_eq in E. subst c. discriminate.
Qed.

(** X2: indentation does not matter: white space put in front of a line
    changes nothing to the test. *)
Theorem match_ignores_indentation ws line :
  forallb isspace ws = true ->
  commented_code_match (ws ++ line) = commented_code_match line.
Proof.
  unfold commented_code_match, commented_code_pattern.
  induction ws as [|c ws IH]; intro H; [reflexivity|].
  simpl in H. apply andb_true_iff in H as [Hc Hws].
  simpl app. rewrite ReFacts.run_star_cons.
  change (Re.cls_test Re.Space c) with (isspace c). rewrite Hc, (IH Hws).
  simpl. rewrite (space_is_not_hash c Hc). simpl. apply orb_false_r.
Qed.

Lemma match_ignores_indentation_witness :
  forallb isspace (str "    ") = true
  /\ commented_code_match (str "    " ++ str "# total(a, b)")
     = commented_code_match (str "# total(a, b)").
Proof.
  assert (H : forallb isspace (str "    ") = true) by reflexivity.
  split; [exact H|].
  exact (match_ignores_indentation (str "    ") (str "# total(a, b)") H).
Defined.

Lemma lstrip_split s :
  exists l, s = l ++ lstrip s /\ forallb isspace l = true.
Proof.
  induction s as [|c s (l & E & Hl)]; simpl.
  - exists []. auto.
  - destruct (isspace c) eqn:Hc.
    + exists (c :: l). simpl. rewrite Hc, Hl. split; [now f_equal|reflexivity].
    + exists []. auto.
Qed.

Lemma lstrip_spaces ws s :
  forallb isspace ws = true -> lstrip (ws ++ s) = lstrip s.
Proof.
  induction ws as [|c ws IH]; simpl; intro H; [reflexivity|].
  apply andb_true_iff in H as [Hc Hws]. rewrite Hc. now apply IH.
Qed.

Lemma lstrip_solid c s : isspace c = false -> lstrip (c :: s) = c :: s.
Proof. intro H. simpl. now rewrite H. Qed.

Lemma lstrip_before_solid u c v :
  isspace c = false -> lstrip (u ++ c :: v) = lstrip u ++ c :: v.
Proof.
  intro Hc. induction u as [|d u IH]; simpl.
  - now rewrite Hc.
  - destruct (isspace d); [exact IH|reflexivity].
Qed.

Lemma lstrip_idempotent s : lstrip (lstrip s) = lstrip s.
Proof.
  induction s as [|c s IH]; simpl; [reflexivity|].
  destruct (isspace c) eqn:Hc; [exact IH|]. simpl. now rewrite Hc.
Qed.

Lemma rstrip_split s :
  exists r, s = rstrip s ++ r /\ forallb isspace r = true.
Proof.
  unfold rstrip. destruct (lstrip_split (rev s)) as (l & E & Hl).
  exists (rev l). split.
  - rewrite <- rev_app_distr, <- E. symmetry. apply rev_involutive.
  - rewrite forallb_forall in *. intros x Hx. apply Hl. now apply in_rev.
Qed.

Lemma rstrip_after_solid x c rest :
  isspace c = false -> rstrip (x ++ c :: rest) = x ++ c :: rstrip rest.
Proof.
  intro Hc. unfold rstrip. rewrite rev_app_distr. simpl rev.
  rewrite <- app_assoc. simpl app. rewrite lstrip_before_solid by exact Hc.
  rewrite rev_app_distr. simpl rev. rewrite rev_involutive, <- app_assoc.
  reflexivity.
Qed.

Lemma rstrip_idempotent s : rstrip (rstrip s) = rstrip s.
Proof.
  unfold rstrip. now rewrite rev_involutive, lstrip_idempotent.
Qed.

(** A matched line once trimmed: the white space in front is gone, the
    text up to the closing parenthesis is kept, and what follows it is
    trimmed on the right. *)
Lemma strip_matched ws a ident sp b rest :
  forallb isspace ws = true ->
  strip (ws ++ HASH :: a ++ ident ++ sp ++ LPAREN :: b ++ RPAREN :: rest)
  = HASH :: a ++ ident ++ sp ++ LPAREN :: b ++ RPAREN :: rstrip rest.
Proof.
  intro Hws. unfold strip. rewrite lstrip_spaces by exact Hws.
  rewrite lstrip_solid by reflexivity.
  replace (HASH :: a ++ ident ++ sp ++ LPAREN :: b ++ RPAREN :: rest)
    with ((HASH :: a ++ ident ++ sp ++ LPAREN :: b) ++ RPAREN :: rest)
    by (norm_app; reflexivity).
  rewrite rstrip_after_solid by reflexivity. norm_app. reflexivity.
Qed.

(** X3: every line that [scan_file] collects is a matched line of the file
    with nothing but white space taken away at both ends; it starts with
    [#], still matches the pattern, and trimming it again changes nothing. *)
Theorem collected_lines_are_trimmed_comments lines shown :
  In shown (collect_commented lines) ->
  exists line l r,
    In line lines /\ commented_code_match line = true
    /\ line = l ++ shown ++ r
    /\ forallb isspace l = true /\ forallb isspace r = true
    /\ (exists tail, shown = HASH :: tail)
    /\ commented_code_match shown = true
    /\ strip shown = shown.
Proof.
  rewrite collect_commented_eq. intro H.
  apply in_map_iff in H as (line & <- & H).
  apply filter_In in H as [Hin Hm].
  pose proof Hm as Hshape. apply commented_code_match_iff in Hshape
    as (ws & a & ident & sp & b & rest & E & Hws & Ha & Hne & Hid & Hsp & Hb).
  destruct (rstrip_split rest) as (r & Er & Hr).
  exists line, ws, r. subst line. rewrite strip_matched by exact Hws.
  repeat split; auto.
  - rewrite Er at 1. norm_app. reflexivity.
  - eauto.
  - apply commented_code_match_iff.
    exists [], a, ident, sp, b, (rstrip rest). repeat split; auto.
  - rewrite <- (app_nil_l (HASH :: _)) at 1.
    rewrite strip_matched by reflexivity. now rewrite rstrip_idempotent.
Qed.

Lemma collected_lines_are_trimmed_comments_witness :
  exists line l r,
    In line (readlines (str "x = 1" ++ LF :: str "    # total(a, b)  " ++ [LF]))
    /\ commented_code_match line = true
    /\ line = l ++ str "# total(a, b)" ++ r
    /\ forallb isspace l = true /\ forallb isspace r = true
    /\ (exists tail, str "# total(a, b)" = HASH :: tail)
    /\ commented_code_match (str "# total(a, b)") = true
    /\ strip (str "# total(a, b)") = str "# total(a, b)".
Proof.
  apply (collected_lines_are_trimmed_comments
           (readlines (str "x = 1" ++ LF :: str "    # total(a, b)  " ++ [LF]))).
  vm_compute. left. reflexivity.
Defined.

(** ** One file *)

Lemma matched_lines_nil content :
  matched_lines content = [] <->
  forall line, In line (readlines content) -> commented_code_match line = false.
Proof.
  unfold matched_lines. split.
  - intros H line Hin. destruct (commented_code_match line) eqn:Hm; auto.
    assert (Hf : In line (filter commented_code_match (readlines content)))
      by (apply filter_In; auto).
    apply (in_map strip) in Hf. rewrite H in Hf. contradiction.
  - intro H.
    destruct (filter commented_code_match (readlines content))
      as [|line more] eqn:E; [reflexivity|].
    assert (Hf : In line (filter commented_code_match (readlines content)))
      by (rewrite E; now left).
    apply filter_In in Hf as [Hin Hm]. rewrite (H line Hin) in Hm.
    discriminate.
Qed.

(** X4: [scan_file] is silent exactly on clean files: it returns false if
    and only if no line of the file matches, and if and only if it has
    printed nothing; otherwise it returns true. *)
Theorem scan_file_silent_iff_clean filepath content w :
  let out := scan_file filepath (Text content) w in
  (snd out = Ok false <->
   forall line,
     In line (readlines content) -> commented_code_match line = false)
  /\ (snd out = Ok false <-> stdout (fst out) = stdout w)
  /\ (snd out = Ok false \/ snd out = Ok true).
Proof.
  intro out. subst out. rewrite scan_file_text. simpl.
  rewrite <- matched_lines_nil. unfold offending, report. simpl.
  destruct (matched_lines content) as [|l more].
  - rewrite app_nil_r. tauto.
  - split; [|split]; [split; discriminate| |now right].
    split; [discriminate|]. intro H.
    rewrite <- (app_nil_r (stdout w)) in H at 2.
    apply app_inv_head in H. discriminate.
Qed.

Lemma readlines_from_chars n :
  forall text cur,
    length text <= n ->
    forall line c,
      In line (readlines_from cur text) -> In c line ->
      c = LF \/ In c cur \/ In c text.
Proof.
  assert (Hend : forall cur text c,
             In c (rev (LF :: cur)) -> c = LF \/ In c cur \/ In c text).
  { intros cur text c H. apply in_rev in H. destruct H as [<-|H]; auto. }
  induction n as [|n IH]; intros text cur Hlen line c Hin Hc.
  - destruct text; [|simpl in Hlen; lia].
    simpl in Hin. destruct cur; [contradiction|].
    destruct Hin as [<-|[]]. apply in_rev in Hc. auto.
  - destruct text as [|x rest].
    + simpl in Hin. destruct cur; [contradiction|].
      destruct Hin as [<-|[]]. apply in_rev in Hc. auto.
    + simpl in Hlen. cbn [readlines_from] in Hin.
      destruct (x =? LF)%N.
      * destruct Hin as [<-|Hin]; [now apply Hend|].
        destruct (IH rest [] ltac:(lia) line c Hin Hc) as [H|[[]|H]];
          simpl; auto.
      * destruct (x =? CR)%N.
        -- destruct rest as [|d rest'].
           ++ destruct Hin as [<-|[]]. now apply Hend.
           ++ simpl in Hlen.
              destruct (d =? LF)%N;
                (destruct Hin as [<-|Hin]; [now apply Hend|]).
              ** destruct (IH rest' [] ltac:(lia) line c Hin Hc)
                   as [H|[[]|H]]; simpl; auto.
              ** destruct (IH (d :: rest') [] ltac:(simpl; lia) line c Hin Hc)
                   as [H|[[]|H]]; simpl; auto.
        -- destruct (IH rest (x :: cur) ltac:(lia) line c Hin Hc)
             as [H|[[<-|H]|H]]; simpl; auto.
Qed.

Lemma readlines_chars (content line : pystr) (c : char) :
  In line (readlines content) -> In c line -> c = LF \/ In c content.
Proof.
  intros Hin Hc.
  destruct (readlines_from_chars (n := length content) content []
              (le_n _) line c Hin Hc) as [H|[[]|H]]; auto.
Qed.

Lemma matched_line_marks line :
  commented_code_match line = true ->
  In HASH line /\ In LPAREN line /\ In RPAREN line.
Proof.
  intro H. apply commented_code_match_iff in H
    as (ws & a & ident & sp & b & rest & -> & _).
  repeat split; repeat (apply in_or_app; right; try (now left));
    simpl; auto.
  - right. repeat (apply in_or_app; right). now left.
  - right. repeat (apply in_or_app; right). right.
    apply in_or_app. right. now left.
Qed.

(** X5: a file whose content holds no [#], or no opening parenthesis, or
    no closing parenthesis, is clean whatever else it holds: [scan_file]
    prints nothing and returns false. *)
Theorem file_without_marks_is_clean filepath content w :
  ~ In HASH content \/ ~ In LPAREN content \/ ~ In RPAREN content ->
  scan_file filepath (Text content) w
  = (World (stdout w) (opened w ++ [filepath]), Ok false).
Proof.
  intro H. rewrite scan_file_text. unfold report, offending. simpl.
  replace (matched_lines content) with (@nil pystr);
    [now rewrite app_nil_r|].
  symmetry. apply matched_lines_nil. intros line Hin.
  destruct (commented_code_match line) eqn:Hm; [exfalso|reflexivity].
  apply matched_line_marks in Hm as (H1 & H2 & H3).
  destruct H as [H|[H|H]]; apply H;
    [destruct (readlines_chars content line _ Hin H1) as [E|?]
    |destruct (readlines_chars content line _ Hin H2) as [E|?]
    |destruct (readlines_chars content line _ Hin H3) as [E|?]];
    auto; discriminate.
Qed.

Lemma file_without_marks_is_clean_witness :
  (~ In HASH (str "// total(a,b)" ++ [LF])
   \/ ~ In LPAREN (str "// total(a,b)" ++ [LF])
   \/ ~ In RPAREN (str "// total(a,b)" ++ [LF]))
  /\ scan_file (str "src/e.js") (Text (str "// total(a,b)" ++ [LF])) start
     = (World [] [str "src/e.js"], Ok false).
Proof.
  assert (H : ~ In HASH (str "// total(a,b)" ++ [LF])
              \/ ~ In LPAREN (str "// total(a,b)" ++ [LF])
              \/ ~ In RPAREN (str "// total(a,b)" ++ [LF])).
  { left. vm_compute. intuition discriminate. }
  split; [exact H|].
  exact (@file_without_marks_is_clean (str "src/e.js") _ start H).
Defined.

Lemma readlines_from_concat text : forall cur,
  ~ In CR text -> concat (readlines_from cur text) = rev cur ++ text.
Proof.
  induction text as [|c rest IH]; intros cur H.
  - simpl. destruct cur; simpl; now rewrite ?app_nil_r.
  - cbn [readlines_from]. destruct (c =? LF)%N eqn:E.
    + apply N.eqb_eq in E. subst c. cbn [concat].
      rewrite IH by (simpl in H; tauto). simpl. now rewrite <- app_assoc.
    + destruct (c =? CR)%N eqn:E'.
      * apply N.eqb_eq in E'. subst c. exfalso. apply H. now left.
      * rewrite IH by (simpl in H; tauto). simpl. now rewrite <- app_assoc.
Qed.

(** X6: nothing of a file escapes the scan: when the content holds no
    carriage return, the lines that [scan_file] goes through, put end to
    end, are the content; and each of them holds a line feed at its end at
    most. *)
Theorem lines_cover_the_file content :
  ~ In CR content ->
  concat (readlines content) = content
  /\ forall line, In line (readlines content) -> one_line line.
Proof.
  intro H. split.
  - apply (readlines_from_concat content [] H).
  - intros line. apply readlines_one_line.
Qed.

Lemma lines_cover_the_file_witness :
  ~ In CR (str "x = 1" ++ LF :: str "# f(x)")
  /\ concat (readlines (str "x = 1" ++ LF :: str "# f(x)"))
     = str "x = 1" ++ LF :: str "# f(x)".
Proof.
  assert (H : ~ In CR (str "x = 1" ++ LF :: str "# f(x)"))
    by (vm_compute; intuition discriminate).
  split; [exact H|].
  exact (proj1 (lines_cover_the_file _ H)).
Defined.

(** ** The whole run *)

Lemma until_unreadable_stop pre p e rest :
  forallb is_text (map snd pre) = true ->
  until_unreadable (pre ++ (p, Unreadable e) :: rest) = (pre, Some (p, e)).
Proof.
  induction pre as [|[q [content|e']] pre IH]; simpl; intro H.
  - reflexivity.
  - now rewrite (IH H).
  - discriminate.
Qed.

(** X7: the run stops at the first scanned file that cannot be opened or
    decoded: the reports of the files before it have been printed, it is
    the last path opened, no closing banner is printed and the exception
    reaches the top level uncaught; the files after it are not opened. *)
Theorem run_aborts_at_first_unreadable at_target pre p e rest :
  scanned_files TARGET_DIR at_target = pre ++ (p, Unreadable e) :: rest ->
  forallb is_text (map snd pre) = true ->
  run_script at_target
  = (World (scanning_banner :: flat_map report pre) (map fst pre ++ [p]),
     Uncaught e).
Proof.
  intros E Hpre. unfold run_script. rewrite main_outcome.
  unfold scan_outcome. rewrite E, until_unreadable_stop by exact Hpre.
  reflexivity.
Qed.

Lemma run_aborts_at_first_unreadable_witness :
  run_script (Some broken_tree)
  = (World [scanning_banner; found_header (str "src/a.py");
            arrow_line (str "# f(x)")]
           [str "src/a.py"; str "src/b.py"],
     Uncaught UnicodeDecodeError).
Proof.
  apply (@run_aborts_at_first_unreadable (Some broken_tree)
           [(str "src/a.py", Text (str "# f(x)" ++ [LF]))]
           (str "src/b.py") UnicodeDecodeError
           [(str "src/c.py", Text (str "# g(y)" ++ [LF]))]);
    reflexivity.
Defined.

Lemma report_lines file : Forall is_report_line (report file).
Proof.
  unfold report. destruct (snd file) as [content|e]; [|constructor].
  destruct (matched_lines content) as [|l more]; constructor.
  - left. eauto.
  - apply Forall_forall. intros s Hs. right.
    apply in_map_iff in Hs as (x & <- & _). eauto.
Qed.

Lemma reports_lines files : Forall is_report_line (flat_map report files).
Proof.
  induction files as [|f files IH]; simpl; [constructor|].
  apply Forall_app. split; [apply report_lines|exact IH].
Qed.

(** X8: what a run prints is the start banner, then headers and matched
    lines only, then one closing banner that agrees with the exit status:
    the success banner with status 0, the failure banner with status 1,
    and none when the run is aborted by an error. *)
Theorem run_output_shape at_target :
  exists body,
    Forall is_report_line body
    /\ stdout (fst (run_script at_target))
       = scanning_banner :: body
         ++ match snd (run_script at_target) with
            | Exited code =>
                if (code =? 0)%Z then [clean_banner] else [failed_banner]
            | Uncaught _ => []
            end
    /\ match snd (run_script at_target) with
       | Exited code => code = 0%Z \/ code = 1%Z
       | Uncaught _ => True
       end.
Proof.
  unfold run_script. rewrite main_outcome. unfold scan_outcome.
  destruct (until_unreadable (scanned_files TARGET_DIR at_target))
    as [done [[p e]|]].
  - exists (flat_map report done). split; [apply reports_lines|].
    simpl. now rewrite app_nil_r.
  - exists (flat_map report done). split; [apply reports_lines|].
    simpl. destruct (existsb offending done); simpl; auto.
Qed.

(** ** Paths *)

Lemma join_under_target path name :
  under_target path -> relative_name name = true ->
  exists rel, path_join path name = str "src/" ++ rel.
Proof.
  intros Hp Hn. unfold path_join.
  assert (Hrel : match name with
                 | c :: _ => (c =? SLASH)%N
                 | [] => false
                 end = false).
  { destruct name as [|c name]; [reflexivity|].
    simpl in Hn. now apply negb_true_iff in Hn. }
  rewrite Hrel. destruct Hp as [->|[rel ->]].
  - exists name. reflexivity.
  - destruct (rev (str "src/" ++ rel)) as [|c t].
    + exists (rel ++ name). now rewrite <- app_assoc.
    + destruct (c =? SLASH)%N.
      * exists (rel ++ name). now rewrite <- app_assoc.
      * exists (rel ++ SLASH :: name). now rewrite <- app_assoc.
Qed.

Lemma file_in_under_target top n root name d :
  file_in top n root name d ->
  under_target top -> names_relative n = true ->
  under_target root /\ relative_name name = true.
Proof.
  induction 1 as [top es name d Hin|top es sub child root name d Hin Hf IH];
    intros Htop Hn; simpl in Hn; rewrite forallb_forall in Hn;
    specialize (Hn _ Hin); simpl in Hn.
  - now rewrite andb_true_r in Hn.
  - apply andb_true_iff in Hn as [Hsub Hchild].
    apply IH; [|exact Hchild]. right. now apply join_under_target.
Qed.

(** X9: the scan stays below the target directory: when no name of the
    tree starts with a slash, every path handed to [open] is [src/]
    followed by something. *)
Theorem opened_paths_stay_under_target n p :
  names_relative n = true ->
  In p (opened (fst (run_script (Some n)))) ->
  exists rel, p = str "src/" ++ rel.
Proof.
  intros Hn H.
  apply run_script_opened in H as (root & name & d & -> & Hs).
  destruct Hs as [(n' & E & Hf) _]. injection E as <-.
  destruct (file_in_under_target Hf (or_introl eq_refl) Hn) as [Hroot Hname].
  now apply join_under_target.
Qed.

Lemma opened_paths_stay_under_target_witness :
  exists rel, str "src/sub/b.py" = str "src/" ++ rel.
Proof.
  apply (@opened_paths_stay_under_target sample_tree (str "src/sub/b.py")).
  - reflexivity.
  - vm_compute. right. right. left. reflexivity.
Defined.

(** ** The order of a listing *)

Lemma file_in_reversed_listing top n root name d :
  file_in top (reversed_listing n) root name d <-> file_in top n root name d.
Proof.
  destruct n as [d'|[es|]]; simpl; try tauto.
  split; intro H;
    inversion H as [? ? ? ? Hin|? ? ? ? ? ? ? Hin Hf]; subst.
  - apply file_here. now apply in_rev.
  - eapply file_below; [|exact Hf]. apply in_rev. exact Hin.
  - apply file_here. now apply in_rev in Hin.
  - eapply file_below; [|exact Hf]. apply in_rev in Hin. exact Hin.
Qed.

Lemma existsb_same {A} (f : A -> bool) l1 l2 :
  (existsb f l1 = true <-> existsb f l2 = true) ->
  existsb f l1 = existsb f l2.
Proof.
  destruct (existsb f l1), (existsb f l2); intuition congruence.
Qed.

(** X10: the exit status does not depend on the order in which the
    directories list their entries: two trees with the same files, all
    the scanned ones readable, end the run with the same status, 0 or 1. *)
Theorem exit_status_ignores_listing_order t1 t2 :
  (forall root name d,
      file_under TARGET_DIR t1 root name d
      <-> file_under TARGET_DIR t2 root name d) ->
  all_readable TARGET_DIR t1 ->
  snd (run_script t1) = snd (run_script t2)
  /\ (snd (run_script t1) = Exited 0 \/ snd (run_script t1) = Exited 1).
Proof.
  intros Hsame H1.
  assert (H2 : all_readable TARGET_DIR t2).
  { intros root name d [Hf Hq]. apply (H1 root name d).
    split; [now apply Hsame|exact Hq]. }
  assert (Hany : existsb offending (scanned_files TARGET_DIR t1)
                 = existsb offending (scanned_files TARGET_DIR t2)).
  { apply existsb_same. rewrite !some_offending_iff. unfold scanned.
    split; intros (root & name & d & [Hf Hq] & Hm);
      exists root, name, d; (split; [split|]; auto); now apply Hsame. }
  rewrite !run_script_ending. unfold scan_outcome.
  rewrite (all_readable_files H1), (all_readable_files H2), Hany. simpl.
  destruct (existsb offending (scanned_files TARGET_DIR t2)); auto.
Qed.

Lemma exit_status_ignores_listing_order_witness :
  snd (run_script (Some sample_tree))
  = snd (run_script (Some (reversed_listing sample_tree)))
  /\ (snd (run_script (Some sample_tree)) = Exited 0
      \/ snd (run_script (Some sample_tree)) = Exited 1).
Proof.
  apply exit_status_ignores_listing_order.
  - intros root name d. unfold file_under. split.
    + intros (n & E & Hf). injection E as <-. eexists. split; [reflexivity|].
      now apply file_in_reversed_listing.
    + intros (n & E & Hf). injection E as <-. eexists. split; [reflexivity|].
      now apply file_in_reversed_listing in Hf.
  - apply all_readable_check. reflexivity.
Defined.

(** ** Directories that cannot be listed *)

Lemma emptied_dir l : exists l', emptied (Dir l) = Dir (Some l').
Proof. destruct l as [es|]; simpl; eauto. Qed.

Lemma files_of_emptied es :
  files_of (map (fun e : pystr * node =>
                   let (name, child) := e in (name, emptied child)) es)
  = files_of es.
Proof.
  induction es as [|[name [d|l]] es IH]; cbn [map files_of].
  - reflexivity.
  - simpl. now rewrite IH.
  - destruct (emptied_dir l) as [l' ->]. exact IH.
Qed.

Lemma scanned_files_emptied n : forall top,
  flat_map scanned_of_step (os_walk top (emptied n))
  = flat_map scanned_of_step (os_walk top n).
Proof.
  induction n as [d| |es IH] using node_induction; intro top;
    try reflexivity.
  cbn [emptied os_walk flat_map]. unfold scanned_of_step at 1 3.
  cbn [ws_root ws_files]. rewrite files_of_emptied. f_equal.
  induction es as [|[name [d|l]] es IHes]; cbn [map flat_map].
  - reflexivity.
  - apply IHes. now inversion IH.
  - inversion IH as [|? ? Hchild Hrest]; subst. cbn [snd] in Hchild.
    rewrite !flat_map_app, (IHes Hrest). f_equal.
    specialize (Hchild (path_join top name)).
    destruct (emptied_dir l) as [l' E]. rewrite E in *.
    exact Hchild.
Qed.

(** X11: a directory that cannot be listed is passed over in silence, as
    if it were empty: the run prints and opens the same and ends the same
    on the tree where every such directory is replaced by an empty one. *)
Theorem unlistable_directories_are_skipped at_target :
  run_script (option_map emptied at_target) = run_script at_target.
Proof.
  unfold run_script. rewrite !main_outcome.
  replace (scanned_files TARGET_DIR (option_map emptied at_target))
    with (scanned_files TARGET_DIR at_target); [reflexivity|].
  destruct at_target as [n|]; [|reflexivity].
  symmetry. apply scanned_files_emptied.
Qed.
